(** * GnuCash preferences backend (gnc-gsettings.c): a shallow embedding

    The development follows [src/app-utils/gnc-gsettings.c]:

    - [Module GStr]: the GLib string routines of the schema-name and key
      code ([g_strdup], [g_str_has_prefix], [g_strjoin], [g_strcmp0]), with
      the allocations they perform;
    - [Module Names]: the normalization of schema names;
    - [Module Prefs]: the facade itself (schema catalog, key validator,
      typed accessors, callback registry, reset), written against an
      interface of the GSettings provider;
    - [Module GLibModel]: one executable instance of that interface,
      following GLib's reference documentation;
    - [Module Migration]: the external entity loader and the migration
      driver.

    The properties follow the definitions, in [NamesTheory], [PrefsTheory],
    [PrefsExamples] and [MigrationTheory].

    C strings are [string]; a nullable [const gchar *] is an
    [option string] ([None] is [NULL]).  Debug-level tracing ([ENTER],
    [LEAVE], [DEBUG]) is not part of the modelled state; warnings, errors
    and criticals are. *)

From Stdlib Require Import ZArith PrimFloat Ascii.
From stdpp Require Import base option list strings gmap fin_maps.

Local Open Scope string_scope.

(** ** GLib string routines *)

Module GStr.

(** Live [g_malloc]ed strings, by address. *)
Abbreviation heap := (gmap positive string).

(** A computation that may allocate. *)
Definition alloc (A : Type) : Type := heap → A * heap.

Definition g_malloc_string (s : string) : alloc positive :=
  λ h, let a := fresh (dom h) in (a, <[a := s]> h).

(** [g_strdup (str)]: [NULL] for [NULL], otherwise a new copy. *)
Definition g_strdup (str : option string) : alloc (option positive) :=
  λ h, match str with
       | None => (None, h)
       | Some s => let '(a, h') := g_malloc_string s h in (Some a, h')
       end.

(** [g_str_has_prefix (str, prefix)]: [FALSE] when either is [NULL]
    (GLib's [g_return_val_if_fail]), else [strncmp] over the length of
    [prefix]. *)
Definition g_str_has_prefix (str prefix : option string) : bool :=
  match str, prefix with
  | Some s, Some p => String.prefix p s
  | _, _ => false
  end.

(** A variadic argument list ends at its first [NULL]. *)
Fixpoint va_strings (args : list (option string)) : list string :=
  match args with
  | Some s :: rest => s :: va_strings rest
  | _ => []
  end.

(** [g_strjoin (separator, ..., NULL)]: a new string, the arguments joined
    by [separator]; the empty string when the first argument is [NULL]. *)
Definition g_strjoin (separator : string) (args : list (option string))
  : alloc (option positive) :=
  λ h, let '(a, h') := g_malloc_string (String.concat separator (va_strings args)) h
       in (Some a, h').

(** [g_strcmp0 (a, b) == 0]: [NULL]-safe byte-wise equality. *)
Definition g_strcmp0_eq (a b : option string) : bool :=
  match a, b with
  | None, None => true
  | Some x, Some y => String.eqb x y
  | _, _ => false
  end.

(** What a returned pointer points to. *)
Definition deref (p : option positive) (h : heap) : option string :=
  p ≫= λ a, h !! a.

End GStr.

(** ** Schema names *)

Module Names.
Import GStr.

(** [gnc_gsettings_normalize_schema_name], with [gnc_gsettings_get_prefix ()]
    as the argument [prefix]. *)
Definition gnc_gsettings_normalize_schema_name
    (prefix name : option string) : alloc (option positive) :=
  match name with
  | None =>
      (* Need to return a newly allocated string *)
      g_strdup prefix
  | Some _ =>
      if g_str_has_prefix name prefix
      then g_strdup name
      else g_strjoin "." [prefix; name; None]
  end.

(** The text of the normalized name: the string the returned pointer
    points to.  The allocation starts from an empty heap here; by
    [normalize_content_any_heap] the text is the same from every heap. *)
Definition normalized (prefix name : option string) : option string :=
  let '(p, h) := gnc_gsettings_normalize_schema_name prefix name ∅ in
  deref p h.

(** The text the function returns with the prefix set, by cases on the
    name as the source takes them. *)
Definition normalized_text (prefix : string) (name : option string) : string :=
  match name with
  | None => prefix
  | Some n => if String.prefix prefix n then n else prefix ++ "." ++ n
  end.

End Names.

(** ** The preferences facade *)

Module Prefs.
Import GStr Names.

(** A [gpointer] (callback, user data, bound object): an address, [0] for
    [NULL]. *)
Abbreviation gpointer := N.

(** [GSignalMatchType], from GLib's [gsignal.h]. *)
Definition G_SIGNAL_MATCH_ID : Z := 1.
Definition G_SIGNAL_MATCH_DETAIL : Z := 2.
Definition G_SIGNAL_MATCH_CLOSURE : Z := 4.
Definition G_SIGNAL_MATCH_FUNC : Z := 8.
Definition G_SIGNAL_MATCH_DATA : Z := 16.
Definition G_SIGNAL_MATCH_UNBLOCKED : Z := 32.

(** C's logical [a || b] on integers: [1] when an operand is non-zero. *)
Definition c_logical_or (a b : Z) : Z :=
  if (a =? 0)%Z && (b =? 0)%Z then 0%Z else 1%Z.

(** C's bitwise [a | b]. *)
Definition c_bitwise_or (a b : Z) : Z := Z.lor a b.

(** The settings provider (GSettings and GObject signals), as the facade
    sees it: a state machine.  A [GSettings] is a live object, as
    [G_IS_SETTINGS] accepts it, and an [option GSettings] a pointer that may
    be to no such object; [g_settings_new] answers [None] when it makes none,
    the case the source's warning is for.  The schema of an object, and so the
    keys it lists, is fixed when the object is made.  A nullable key or value
    is passed on as it comes. *)
Class Provider := {
  provider_state : Type;
  GSettings : Type;
  GVariant : Type;
  GQuark : Type;
  g_settings_new : string → provider_state → option GSettings * provider_state;
  g_settings_list_keys : GSettings → list string;
  g_settings_get_boolean :
    GSettings → option string → provider_state → bool * provider_state;
  g_settings_set_boolean :
    GSettings → option string → bool → provider_state → bool * provider_state;
  g_settings_get_int :
    GSettings → option string → provider_state → Z * provider_state;
  g_settings_set_int :
    GSettings → option string → Z → provider_state → bool * provider_state;
  g_settings_get_double :
    GSettings → option string → provider_state → float * provider_state;
  g_settings_set_double :
    GSettings → option string → float → provider_state → bool * provider_state;
  g_settings_get_string :
    GSettings → option string → provider_state → option string * provider_state;
  g_settings_set_string :
    GSettings → option string → option string → provider_state
    → bool * provider_state;
  g_settings_get_enum :
    GSettings → option string → provider_state → Z * provider_state;
  g_settings_set_enum :
    GSettings → option string → Z → provider_state → bool * provider_state;
  g_settings_get_value :
    GSettings → option string → provider_state → option GVariant * provider_state;
  g_settings_set_value :
    GSettings → option string → option GVariant → provider_state
    → bool * provider_state;
  g_settings_reset : GSettings → option string → provider_state → provider_state;
  g_settings_bind :
    GSettings → option string → gpointer → option string → Z
    → provider_state → provider_state;
  g_quark_from_string : option string → GQuark;
  g_signal_connect :
    GSettings → option string → gpointer → gpointer
    → provider_state → Z * provider_state;
  g_signal_handlers_disconnect_matched :
    GSettings → Z → Z → GQuark → gpointer → gpointer → gpointer
    → provider_state → Z * provider_state;
  g_signal_handler_disconnect : GSettings → Z → provider_state → provider_state;
}.

Inductive log_level := LOG_WARNING | LOG_ERROR | LOG_CRITICAL.

Record log_entry := { level : log_level; message : string }.

Definition warning_entry (msg : string) : log_entry :=
  {| level := LOG_WARNING; message := msg |}.
Definition error_entry (msg : string) : log_entry :=
  {| level := LOG_ERROR; message := msg |}.

(** The critical of a failed [g_return_if_fail (expr)] in [func]. *)
Definition critical_entry (func expr : string) : log_entry :=
  {| level := LOG_CRITICAL;
     message := func ++ ": assertion '" ++ expr ++ "' failed" |}.

(** [printf]'s [%s], which prints [(null)] for [NULL]. *)
Definition fmt_s (s : option string) : string := default "(null)" s.

Section Facade.
Context {P : Provider}.

(** The file's statics ([gsettings_prefix], [schema_hash]), the provider
    and the log. *)
Record world := {
  gsettings_prefix : option string;
  schema_hash : option (gmap string GSettings);
  backend : provider_state;
  log : list log_entry;
}.

Definition set_schema_hash (t : option (gmap string GSettings)) (w : world) :=
  {| gsettings_prefix := gsettings_prefix w; schema_hash := t;
     backend := backend w; log := log w |}.

Definition set_backend (b : provider_state) (w : world) :=
  {| gsettings_prefix := gsettings_prefix w; schema_hash := schema_hash w;
     backend := b; log := log w |}.

Definition add_log (e : log_entry) (w : world) :=
  {| gsettings_prefix := gsettings_prefix w; schema_hash := schema_hash w;
     backend := backend w; log := log w ++ [e] |}.

(** The catalog as a map: no table yet is the empty table. *)
Definition catalog (w : world) : gmap string GSettings :=
  default ∅ (schema_hash w).

(** A call of the facade: it steps the world and returns, or does not
    return ([None]: a [NULL] dereference inside GLib). *)
Definition M (A : Type) : Type := world → option (A * world).

#[export] Instance M_ret : MRet M := λ A a w, Some (a, w).
#[export] Instance M_bind : MBind M :=
  λ A B k m w, match m w with Some (a, w') => k a w' | None => None end.

Definition crash {A} : M A := λ _, None.
Definition gets {A} (f : world → A) : M A := λ w, Some (f w, w).
Definition modify (f : world → world) : M unit := λ w, Some (tt, f w).

(** A call into the provider. *)
Definition call {A} (op : provider_state → A * provider_state) : M A :=
  λ w, let '(a, b) := op (backend w) in Some (a, set_backend b w).
Definition call_ (op : provider_state → provider_state) : M unit :=
  λ w, Some (tt, set_backend (op (backend w)) w).

Definition PWARN (msg : string) : M unit := modify (add_log (warning_entry msg)).
Definition PERR (msg : string) : M unit := modify (add_log (error_entry msg)).

(** What [g_return_if_fail] and [g_return_val_if_fail] do when the check
    fails, before they return (the checks are compiled in). *)
Definition g_return_if_fail_warning (func expr : string) : M unit :=
  modify (add_log (critical_entry func expr)).

(** [if (c) m;] *)
Definition when (c : bool) (m : M unit) : M unit := if c then m else mret tt.

(** *** Internal helper functions *)

(** The [while (keys && keys[i])] loop of [gnc_gsettings_is_valid_key]. *)
Fixpoint key_found (key : option string) (keys : list string) : bool :=
  match keys with
  | [] => false
  | k :: rest => if g_strcmp0_eq key (Some k) then true else key_found key rest
  end.

Definition gnc_gsettings_is_valid_key
    (settings : option GSettings) (key : option string) : bool :=
  match settings with
  | None => false                      (* !G_IS_SETTINGS(settings) *)
  | Some s => key_found key (g_settings_list_keys s)
  end.

Definition gnc_gsettings_get_schema_ptr (schema_str : option string)
  : M (option GSettings) :=
  prefix ← gets gsettings_prefix;
  let full_name := normalized prefix schema_str in
  table ← gets schema_hash;
  (if table is None then modify (set_schema_hash (Some ∅)) else mret tt);;
  match full_name with
  | None => crash                      (* g_str_hash (NULL) *)
  | Some name =>
      table ← gets catalog;
      match table !! name with
      | Some gset => mret (Some gset)
      | None =>
          gset ← call (g_settings_new name);
          match gset with
          | Some s =>
              modify (set_schema_hash (Some (<[name := s]> table)));;
              mret gset
          | None =>
              PWARN ("Ignoring attempt to access unknown gsettings schema "
                     ++ name);;
              mret gset
          end
      end
  end.

(** *** GSettings utilities *)

Definition gnc_gsettings_set_prefix (prefix : option string) : M unit :=
  modify (λ w, {| gsettings_prefix := prefix; schema_hash := schema_hash w;
                  backend := backend w; log := log w |}).

Definition gnc_gsettings_get_prefix : M (option string) :=
  gets gsettings_prefix.

(** *** Change notification *)

(** The signal name both registry functions build from [key], by content:
    [g_strdup ("changed")] for no or an empty key, [g_strconcat ("changed::",
    key, NULL)] for a valid key, and [NULL] (the initial value of [signal])
    otherwise. *)
Definition changed_signal
    (schema_ptr : option GSettings) (key : option string) : option string :=
  match key with
  | None => Some "changed"
  | Some k =>
      if String.eqb k EmptyString then Some "changed"
      else if gnc_gsettings_is_valid_key schema_ptr key
           then Some ("changed::" ++ k)
           else None
  end.

Definition gnc_gsettings_register_cb
    (schema key : option string) (func user_data : gpointer) : M Z :=
  let retval := 0%Z in
  schema_ptr ← gnc_gsettings_get_schema_ptr schema;
  match schema_ptr with
  | None =>
      g_return_if_fail_warning "gnc_gsettings_register_cb"
                               "G_IS_SETTINGS (schema_ptr)";;
      mret retval
  | Some settings =>
      if (func =? 0)%N then
        g_return_if_fail_warning "gnc_gsettings_register_cb" "func";;
        mret retval
      else
        let signal := changed_signal schema_ptr key in
        call (g_signal_connect settings signal func user_data)
  end.

(** The mask argument as the source writes it, with [||]. *)
Definition remove_cb_match_mask : Z :=
  c_logical_or (c_logical_or G_SIGNAL_MATCH_DETAIL G_SIGNAL_MATCH_FUNC)
               G_SIGNAL_MATCH_DATA.

(** Returns [matched], the count the function's [DEBUG] line prints. *)
Definition gnc_gsettings_remove_cb_by_func
    (schema key : option string) (func user_data : gpointer) : M Z :=
  schema_ptr ← gnc_gsettings_get_schema_ptr schema;
  match schema_ptr with
  | None =>
      g_return_if_fail_warning "gnc_gsettings_remove_cb_by_func"
                               "G_IS_SETTINGS (schema_ptr)";;
      mret 0%Z
  | Some settings =>
      if (func =? 0)%N then
        g_return_if_fail_warning "gnc_gsettings_remove_cb_by_func" "func";;
        mret 0%Z
      else
        let signal := changed_signal schema_ptr key in
        call (g_signal_handlers_disconnect_matched
                settings
                remove_cb_match_mask
                0%Z                            (* signal_id *)
                (g_quark_from_string signal)   (* signal_detail *)
                0%N                            (* closure *)
                func                           (* callback function *)
                user_data)
  end.

(** The parameter [handlerid] is a [guint]: of the id a caller passes (the
    [gulong] of [gnc_gsettings_register_cb], say) the low 32 bits arrive. *)
Definition gnc_gsettings_remove_cb_by_id
    (schema : option string) (handlerid : Z) : M unit :=
  let handlerid := (handlerid mod 2 ^ 32)%Z in
  schema_ptr ← gnc_gsettings_get_schema_ptr schema;
  match schema_ptr with
  | None =>
      g_return_if_fail_warning "gnc_gsettings_remove_cb_by_id"
                               "G_IS_SETTINGS (schema_ptr)"
  | Some settings => call_ (g_signal_handler_disconnect settings handlerid)
  end.

(** The [gulong] comes back as a [guint]. *)
Definition gnc_gsettings_register_any_cb
    (schema : option string) (func user_data : gpointer) : M Z :=
  id ← gnc_gsettings_register_cb schema None func user_data;
  mret (id mod 2 ^ 32)%Z.

Definition gnc_gsettings_remove_any_cb_by_func
    (schema : option string) (func user_data : gpointer) : M Z :=
  gnc_gsettings_remove_cb_by_func schema None func user_data.

Definition invalid_key_msg (key schema : option string) : string :=
  "Invalid key " ++ fmt_s key ++ " for schema " ++ fmt_s schema.

Definition unable_to_set_msg (key schema : option string) : string :=
  "Unable to set value for key " ++ fmt_s key ++ " in schema " ++ fmt_s schema.

Definition gnc_gsettings_bind
    (schema key : option string) (object : gpointer) (property : option string)
  : M unit :=
  schema_ptr ← gnc_gsettings_get_schema_ptr schema;
  match schema_ptr with
  | None =>
      g_return_if_fail_warning "gnc_gsettings_bind" "G_IS_SETTINGS (schema_ptr)"
  | Some settings =>
      if gnc_gsettings_is_valid_key schema_ptr key
      then call_ (g_settings_bind settings key object property 0%Z)
      else PERR (invalid_key_msg key schema)
  end.

(** *** Getters/Setters *)

Definition gnc_gsettings_get_bool (schema key : option string) : M bool :=
  schema_ptr ← gnc_gsettings_get_schema_ptr schema;
  match schema_ptr with
  | None =>
      g_return_if_fail_warning "gnc_gsettings_get_bool"
                               "G_IS_SETTINGS (schema_ptr)";;
      mret false
  | Some settings =>
      if gnc_gsettings_is_valid_key schema_ptr key
      then call (g_settings_get_boolean settings key)
      else PERR (invalid_key_msg key schema);; mret false
  end.

Definition gnc_gsettings_set_bool
    (schema key : option string) (value : bool) : M bool :=
  schema_ptr ← gnc_gsettings_get_schema_ptr schema;
  match schema_ptr with
  | None =>
      g_return_if_fail_warning "gnc_gsettings_set_bool"
                               "G_IS_SETTINGS (schema_ptr)";;
      mret false
  | Some settings =>
      if gnc_gsettings_is_valid_key schema_ptr key
      then
        result ← call (g_settings_set_boolean settings key value);
        when (negb result) (PERR (unable_to_set_msg key schema));;
        mret result
      else PERR (invalid_key_msg key schema);; mret false
  end.

Definition gnc_gsettings_get_int (schema key : option string) : M Z :=
  schema_ptr ← gnc_gsettings_get_schema_ptr schema;
  match schema_ptr with
  | None =>
      g_return_if_fail_warning "gnc_gsettings_get_int"
                               "G_IS_SETTINGS (schema_ptr)";;
      mret 0%Z
  | Some settings =>
      if gnc_gsettings_is_valid_key schema_ptr key
      then call (g_settings_get_int settings key)
      else PERR (invalid_key_msg key schema);; mret 0%Z
  end.

Definition gnc_gsettings_set_int
    (schema key : option string) (value : Z) : M bool :=
  schema_ptr ← gnc_gsettings_get_schema_ptr schema;
  match schema_ptr with
  | None =>
      g_return_if_fail_warning "gnc_gsettings_set_int"
                               "G_IS_SETTINGS (schema_ptr)";;
      mret false
  | Some settings =>
      if gnc_gsettings_is_valid_key schema_ptr key
      then
        result ← call (g_settings_set_int settings key value);
        when (negb result) (PERR (unable_to_set_msg key schema));;
        mret result
      else PERR (invalid_key_msg key schema);; mret false
  end.

Definition gnc_gsettings_get_float (schema key : option string) : M float :=
  schema_ptr ← gnc_gsettings_get_schema_ptr schema;
  match schema_ptr with
  | None =>
      g_return_if_fail_warning "gnc_gsettings_get_float"
                               "G_IS_SETTINGS (schema_ptr)";;
      mret 0%float
  | Some settings =>
      if gnc_gsettings_is_valid_key schema_ptr key
      then call (g_settings_get_double settings key)
      else PERR (invalid_key_msg key schema);; mret 0%float
  end.

Definition gnc_gsettings_set_float
    (schema key : option string) (value : float) : M bool :=
  schema_ptr ← gnc_gsettings_get_schema_ptr schema;
  match schema_ptr with
  | None =>
      g_return_if_fail_warning "gnc_gsettings_set_float"
                               "G_IS_SETTINGS (schema_ptr)";;
      mret false
  | Some settings =>
      if gnc_gsettings_is_valid_key schema_ptr key
      then
        result ← call (g_settings_set_double settings key value);
        when (negb result) (PERR (unable_to_set_msg key schema));;
        mret result
      else PERR (invalid_key_msg key schema);; mret false
  end.

Definition gnc_gsettings_get_string (schema key : option string)
  : M (option string) :=
  schema_ptr ← gnc_gsettings_get_schema_ptr schema;
  match schema_ptr with
  | None =>
      g_return_if_fail_warning "gnc_gsettings_get_string"
                               "G_IS_SETTINGS (schema_ptr)";;
      mret None
  | Some settings =>
      if gnc_gsettings_is_valid_key schema_ptr key
      then call (g_settings_get_string settings key)
      else PERR (invalid_key_msg key schema);; mret None
  end.

Definition gnc_gsettings_set_string
    (schema key : option string) (value : option string) : M bool :=
  schema_ptr ← gnc_gsettings_get_schema_ptr schema;
  match schema_ptr with
  | None =>
      g_return_if_fail_warning "gnc_gsettings_set_string"
                               "G_IS_SETTINGS (schema_ptr)";;
      mret false
  | Some settings =>
      if gnc_gsettings_is_valid_key schema_ptr key
      then
        result ← call (g_settings_set_string settings key value);
        when (negb result) (PERR (unable_to_set_msg key schema));;
        mret result
      else PERR (invalid_key_msg key schema);; mret false
  end.

Definition gnc_gsettings_get_enum (schema key : option string) : M Z :=
  schema_ptr ← gnc_gsettings_get_schema_ptr schema;
  match schema_ptr with
  | None =>
      g_return_if_fail_warning "gnc_gsettings_get_enum"
                               "G_IS_SETTINGS (schema_ptr)";;
      mret 0%Z
  | Some settings =>
      if gnc_gsettings_is_valid_key schema_ptr key
      then call (g_settings_get_enum settings key)
      else PERR (invalid_key_msg key schema);; mret 0%Z
  end.

Definition gnc_gsettings_set_enum
    (schema key : option string) (value : Z) : M bool :=
  schema_ptr ← gnc_gsettings_get_schema_ptr schema;
  match schema_ptr with
  | None =>
      g_return_if_fail_warning "gnc_gsettings_set_enum"
                               "G_IS_SETTINGS (schema_ptr)";;
      mret false
  | Some settings =>
      if gnc_gsettings_is_valid_key schema_ptr key
      then
        result ← call (g_settings_set_enum settings key value);
        when (negb result) (PERR (unable_to_set_msg key schema));;
        mret result
      else PERR (invalid_key_msg key schema);; mret false
  end.

Definition gnc_gsettings_get_value (schema key : option string)
  : M (option GVariant) :=
  schema_ptr ← gnc_gsettings_get_schema_ptr schema;
  match schema_ptr with
  | None =>
      g_return_if_fail_warning "gnc_gsettings_get_value"
                               "G_IS_SETTINGS (schema_ptr)";;
      mret None
  | Some settings =>
      if gnc_gsettings_is_valid_key schema_ptr key
      then call (g_settings_get_value settings key)
      else PERR (invalid_key_msg key schema);; mret None
  end.

Definition gnc_gsettings_set_value
    (schema key : option string) (value : option GVariant) : M bool :=
  schema_ptr ← gnc_gsettings_get_schema_ptr schema;
  match schema_ptr with
  | None =>
      g_return_if_fail_warning "gnc_gsettings_set_value"
                               "G_IS_SETTINGS (schema_ptr)";;
      mret false
  | Some settings =>
      if gnc_gsettings_is_valid_key schema_ptr key
      then
        result ← call (g_settings_set_value settings key value);
        when (negb result) (PERR (unable_to_set_msg key schema));;
        mret result
      else PERR (invalid_key_msg key schema);; mret false
  end.

Definition gnc_gsettings_reset (schema key : option string) : M unit :=
  schema_ptr ← gnc_gsettings_get_schema_ptr schema;
  match schema_ptr with
  | None =>
      g_return_if_fail_warning "gnc_gsettings_reset" "G_IS_SETTINGS (schema_ptr)"
  | Some settings =>
      if gnc_gsettings_is_valid_key schema_ptr key
      then call_ (g_settings_reset settings key)
      else PERR (invalid_key_msg key schema)
  end.

(** [gnc_gsettings_reset (schema, k)] for each [k] of [keys], in order: the
    [while (keys[counter])] loop of [gnc_gsettings_reset_schema]. *)
Fixpoint reset_each (schema : option string) (keys : list string) : M unit :=
  match keys with
  | [] => mret tt
  | k :: rest => gnc_gsettings_reset schema (Some k);; reset_each schema rest
  end.

(** [g_settings_list_keys] reads its argument's private data: with a
    [NULL] argument the call does not return. *)
Definition gnc_gsettings_reset_schema (schema : option string) : M unit :=
  schema_ptr ← gnc_gsettings_get_schema_ptr schema;
  match schema_ptr with
  | None => crash
  | Some settings => reset_each schema (g_settings_list_keys settings)
  end.

(** *** The backend's entry points

    A call through one of the slots [gnc_gsettings_load_backend] fills in
    [prefsbackend], with its arguments. *)
Inductive backend_call :=
| register_cb (schema key : option string) (func user_data : gpointer)
| remove_cb_by_func (schema key : option string) (func user_data : gpointer)
| remove_cb_by_id (schema : option string) (handlerid : Z)
| register_group_cb (schema : option string) (func user_data : gpointer)
| remove_group_cb_by_func (schema : option string) (func user_data : gpointer)
| bind (schema key : option string) (object : gpointer) (property : option string)
| get_bool (schema key : option string)
| get_int (schema key : option string)
| get_float (schema key : option string)
| get_string (schema key : option string)
| get_enum (schema key : option string)
| get_value (schema key : option string)
| set_bool (schema key : option string) (value : bool)
| set_int (schema key : option string) (value : Z)
| set_float (schema key : option string) (value : float)
| set_string (schema key : option string) (value : option string)
| set_enum (schema key : option string) (value : Z)
| set_value (schema key : option string) (value : option GVariant)
| reset (schema key : option string)
| reset_group (schema : option string).

(** The call, its result dropped. *)
Definition perform (c : backend_call) : M unit :=
  match c with
  | register_cb s k f u => gnc_gsettings_register_cb s k f u;; mret tt
  | remove_cb_by_func s k f u => gnc_gsettings_remove_cb_by_func s k f u;; mret tt
  | remove_cb_by_id s i => gnc_gsettings_remove_cb_by_id s i
  | register_group_cb s f u => gnc_gsettings_register_any_cb s f u;; mret tt
  | remove_group_cb_by_func s f u =>
      gnc_gsettings_remove_any_cb_by_func s f u;; mret tt
  | bind s k o p => gnc_gsettings_bind s k o p
  | get_bool s k => gnc_gsettings_get_bool s k;; mret tt
  | get_int s k => gnc_gsettings_get_int s k;; mret tt
  | get_float s k => gnc_gsettings_get_float s k;; mret tt
  | get_string s k => gnc_gsettings_get_string s k;; mret tt
  | get_enum s k => gnc_gsettings_get_enum s k;; mret tt
  | get_value s k => gnc_gsettings_get_value s k;; mret tt
  | set_bool s k v => gnc_gsettings_set_bool s k v;; mret tt
  | set_int s k v => gnc_gsettings_set_int s k v;; mret tt
  | set_float s k v => gnc_gsettings_set_float s k v;; mret tt
  | set_string s k v => gnc_gsettings_set_string s k v;; mret tt
  | set_enum s k v => gnc_gsettings_set_enum s k v;; mret tt
  | set_value s k v => gnc_gsettings_set_value s k v;; mret tt
  | reset s k => gnc_gsettings_reset s k
  | reset_group s => gnc_gsettings_reset_schema s
  end.

(** A run of the process after startup: calls one after the other. *)
Fixpoint perform_all (cs : list backend_call) : M unit :=
  match cs with
  | [] => mret tt
  | c :: rest => perform c;; perform_all rest
  end.

(** *** What the properties below speak of *)

(** The world [gnc_gsettings_get_schema_ptr] leaves when the provider knows
    no schema [name]: the table exists, the provider has been asked, the
    warning is logged. *)
Definition after_unknown (name : string) (b : provider_state) (w : world)
  : world :=
  {| gsettings_prefix := gsettings_prefix w;
     schema_hash := Some (catalog w);
     backend := b;
     log := log w ++ [warning_entry
                        ("Ignoring attempt to access unknown gsettings schema "
                         ++ name)] |}.

(** The world it leaves when the provider made the object [gset]. *)
Definition after_created (name : string) (gset : GSettings)
    (b : provider_state) (w : world) : world :=
  {| gsettings_prefix := gsettings_prefix w;
     schema_hash := Some (<[name := gset]> (catalog w));
     backend := b;
     log := log w |}.

(** What a call may do to the statics: nothing to the prefix, and to the
    catalog nothing but add entries. *)
Definition steady {A} (m : M A) : Prop :=
  ∀ w a w1, m w = Some (a, w1) →
    gsettings_prefix w1 = gsettings_prefix w ∧ catalog w ⊆ catalog w1.

(** [key] names a key the schema of [settings] declares. *)
Definition declared (settings : GSettings) (key : option string) : Prop :=
  ∃ k, key = Some k ∧ k ∈ g_settings_list_keys settings.

(** What a typed getter [get] of this file, reading through the provider's
    [provider_get] and with fallback [zero], does after the resolution of its
    schema returned [r] and left [w1]:
    - no schema: [zero], and the critical of [func]'s failed check logged;
    - a schema that does not declare the key: [zero], and the error
      [Invalid key ...] logged;
    in both cases the provider is not called (its state is that of [w1]);
    - otherwise the provider's answer, and the state the provider leaves. *)
Definition getter_contract {T} (func : string)
    (get : option string → option string → M T) (zero : T)
    (provider_get :
       GSettings → option string → provider_state → T * provider_state)
  : Prop :=
  ∀ schema key w r w1,
    gnc_gsettings_get_schema_ptr schema w = Some (r, w1) →
    (r = None →
     get schema key w
     = Some (zero, add_log (critical_entry func "G_IS_SETTINGS (schema_ptr)") w1))
    ∧ (∀ settings, r = Some settings → ¬ declared settings key →
       get schema key w
       = Some (zero, add_log (error_entry (invalid_key_msg key schema)) w1))
    ∧ (∀ settings, r = Some settings → declared settings key →
       get schema key w
       = Some (let '(v, b) := provider_get settings key (backend w1) in
               (v, set_backend b w1))).

(** The same for a typed setter: [false] and the same log entries when a
    check fails, the provider not called; otherwise the provider's result and
    the state the provider leaves, with the error [Unable to set value ...]
    logged when the result is [false].  So when the provider's refusals leave
    its state as it was, a refused write leaves the state of [w1]. *)
Definition setter_contract {V} (func : string)
    (set : option string → option string → V → M bool)
    (provider_set :
       GSettings → option string → V → provider_state → bool * provider_state)
  : Prop :=
  ∀ schema key value w r w1,
    gnc_gsettings_get_schema_ptr schema w = Some (r, w1) →
    (r = None →
     set schema key value w
     = Some (false,
             add_log (critical_entry func "G_IS_SETTINGS (schema_ptr)") w1))
    ∧ (∀ settings, r = Some settings → ¬ declared settings key →
       set schema key value w
       = Some (false, add_log (error_entry (invalid_key_msg key schema)) w1))
    ∧ (∀ settings result b, r = Some settings → declared settings key →
       provider_set settings key value (backend w1) = (result, b) →
       set schema key value w
       = Some (result,
               if result then set_backend b w1
               else add_log (error_entry (unable_to_set_msg key schema))
                            (set_backend b w1))
       ∧ (result = false → b = backend w1 →
          set schema key value w
          = Some (false,
                  add_log (error_entry (unable_to_set_msg key schema)) w1))).

(** The provider's state after [g_settings_reset] on each of [keys], in
    order. *)
Definition reset_all (settings : GSettings) (keys : list string)
    (b : provider_state) : provider_state :=
  foldl (λ b k, g_settings_reset settings (Some k) b) b keys.

(** Resets of two keys of one object can be swapped. *)
Definition resets_commute : Prop :=
  ∀ (settings : GSettings) k1 k2 b,
    g_settings_reset settings k1 (g_settings_reset settings k2 b)
    = g_settings_reset settings k2 (g_settings_reset settings k1 b).

End Facade.

Arguments world : clear implicits.
Arguments M : clear implicits.
Arguments backend_call : clear implicits.

End Prefs.

(** ** A provider to run the facade on

    An executable instance of [Prefs.Provider], after GLib's reference
    documentation of GSettings and of GObject signals.  It delivers no
    change notification: the facade never invokes a callback itself. *)

Module GLibModel.
Import Prefs.

Inductive variant :=
| VBool (b : bool)
| VInt32 (i : Z)
| VDouble (d : float)
| VString (s : string).

Definition same_type (a b : variant) : bool :=
  match a, b with
  | VBool _, VBool _ | VInt32 _, VInt32 _
  | VDouble _, VDouble _ | VString _, VString _ => true
  | _, _ => false
  end.

(** A key as a schema declares it: its default (which fixes its type), the
    [<range>] of an integer key, the nicks and values of an enumerated
    key. *)
Record key_spec := {
  default_value : variant;
  range : option (Z * Z);
  choices : list (string * Z);
}.

Record settings := {
  object_id : positive;
  schema_id : string;
  schema_keys : list (string * key_spec);
}.

Definition changed_signal_id : Z := 1.

Record handler := {
  handler_id : Z;
  instance : positive;
  signal_id : Z;
  detail : option string;
  callback : gpointer;
  data : gpointer;
}.

Record state := {
  installed : list (string * list (string * key_spec));
  next_object : positive;
  values : gmap (string * string) variant;
  handlers : list handler;
  next_handler : Z;
  bindings : list (positive * string * gpointer * option string);
}.

Definition set_values (v : gmap (string * string) variant) (st : state) :=
  {| installed := installed st; next_object := next_object st; values := v;
     handlers := handlers st; next_handler := next_handler st;
     bindings := bindings st |}.

Definition set_handlers (hs : list handler) (n : Z) (st : state) :=
  {| installed := installed st; next_object := next_object st;
     values := values st; handlers := hs; next_handler := n;
     bindings := bindings st |}.

Fixpoint assoc {A} (k : string) (l : list (string * A)) : option A :=
  match l with
  | [] => None
  | (k', a) :: rest => if String.eqb k k' then Some a else assoc k rest
  end.

(** [g_settings_new]: a new object each time, for an installed schema. *)
Definition new (name : string) (st : state) : option settings * state :=
  match assoc name (installed st) with
  | None => (None, st)
  | Some keys =>
      (Some {| object_id := next_object st; schema_id := name;
               schema_keys := keys |},
       {| installed := installed st; next_object := Pos.succ (next_object st);
          values := values st; handlers := handlers st;
          next_handler := next_handler st; bindings := bindings st |})
  end.

Definition list_keys (s : settings) : list string := (schema_keys s).*1.

Definition spec_of (s : settings) (key : option string) : option key_spec :=
  key ≫= λ k, assoc k (schema_keys s).

(** The value of a key: the one set, or else the default. *)
Definition read (s : settings) (key : option string) (st : state)
  : option variant :=
  k ← key; spec ← assoc k (schema_keys s);
  Some (default (default_value spec) (values st !! (schema_id s, k))).

Definition in_range (spec : key_spec) (v : variant) : bool :=
  match v with
  | VInt32 i =>
      match range spec with
      | Some (lo, hi) => (lo <=? i)%Z && (i <=? hi)%Z
      | None => true
      end
  | VString nick =>
      match choices spec with
      | [] => true
      | _ => bool_decide (is_Some (assoc nick (choices spec)))
      end
  | _ => true
  end.

(** A write is refused, and changes nothing, when the value has not the
    key's type or is out of its range. *)
Definition write (s : settings) (key : option string) (v : variant) (st : state)
  : bool * state :=
  match key, spec_of s key with
  | Some k, Some spec =>
      if same_type v (default_value spec) && in_range spec v
      then (true, set_values (<[(schema_id s, k) := v]> (values st)) st)
      else (false, st)
  | _, _ => (false, st)
  end.

Definition read_boolean (s : settings) (key : option string) (st : state) :=
  (match read s key st with Some (VBool b) => b | _ => false end, st).
Definition read_int (s : settings) (key : option string) (st : state) :=
  (match read s key st with Some (VInt32 i) => i | _ => 0%Z end, st).
Definition read_double (s : settings) (key : option string) (st : state) :=
  (match read s key st with Some (VDouble d) => d | _ => 0%float end, st).
Definition read_string (s : settings) (key : option string) (st : state) :=
  (match read s key st with Some (VString x) => Some x | _ => None end, st).
Definition read_value (s : settings) (key : option string) (st : state) :=
  (read s key st, st).

Definition nick_of (value : Z) (l : list (string * Z)) : option string :=
  fst <$> List.find (λ c, (c.2 =? value)%Z) l.

Definition read_enum (s : settings) (key : option string) (st : state) :=
  (match read s key st, spec_of s key with
   | Some (VString nick), Some spec => default 0%Z (assoc nick (choices spec))
   | _, _ => 0%Z
   end, st).

Definition write_enum (s : settings) (key : option string) (value : Z) (st : state)
  : bool * state :=
  match spec_of s key ≫= λ spec, nick_of value (choices spec) with
  | Some nick => write s key (VString nick) st
  | None => (false, st)
  end.

Definition write_string (s : settings) (key value : option string) (st : state)
  : bool * state :=
  match value with
  | Some v => write s key (VString v) st
  | None => (false, st)
  end.

Definition write_value (s : settings) (key : option string)
    (value : option variant) (st : state) : bool * state :=
  match value with
  | Some v => write s key v st
  | None => (false, st)
  end.

(** [g_settings_reset]: the key falls back to its default. *)
Definition reset_key (s : settings) (key : option string) (st : state) : state :=
  match key with
  | Some k => set_values (delete (schema_id s, k) (values st)) st
  | None => st
  end.

Definition bind_key (s : settings) (key : option string) (object : gpointer)
    (property : option string) (flags : Z) (st : state) : state :=
  match key with
  | Some k =>
      {| installed := installed st; next_object := next_object st;
         values := values st; handlers := handlers st;
         next_handler := next_handler st;
         bindings := bindings st ++ [(object_id s, k, object, property)] |}
  | None => st
  end.

(** A detailed signal of a GSettings object: ["changed"], or
    ["changed::<detail>"] with a non-empty detail. *)
Definition parse_signal (detailed_signal : option string)
  : option (Z * option string) :=
  match detailed_signal with
  | None => None
  | Some sig =>
      if String.eqb sig "changed" then Some (changed_signal_id, None)
      else if String.prefix "changed::" sig && (9 <? String.length sig)%nat
           then Some (changed_signal_id,
                      Some (String.substring 9 (String.length sig - 9) sig))
           else None
  end.

(** [g_signal_connect]: the new handler's id, or [0]. *)
Definition connect (s : settings) (detailed_signal : option string)
    (c_handler data : gpointer) (st : state) : Z * state :=
  match parse_signal detailed_signal with
  | None => (0%Z, st)
  | Some (id, det) =>
      let h := {| handler_id := next_handler st; instance := object_id s;
                  signal_id := id; detail := det; callback := c_handler;
                  data := data |} in
      (next_handler st,
       set_handlers (handlers st ++ [h]) (next_handler st + 1) st)
  end.

Definition has_flag (mask flag : Z) : bool := negb (Z.land mask flag =? 0)%Z.

(** A handler matches when it meets every criterion of the mask; the
    closure of a handler made by [g_signal_connect] is its own, so no
    caller's closure equals it. *)
Definition handler_matches (s : settings) (mask id : Z) (det : option string)
    (closure func data_ : gpointer) (h : handler) : bool :=
  bool_decide (instance h = object_id s)
  && (negb (has_flag mask G_SIGNAL_MATCH_ID) || (signal_id h =? id)%Z)
  && (negb (has_flag mask G_SIGNAL_MATCH_DETAIL)
      || bool_decide (detail h = det))
  && negb (has_flag mask G_SIGNAL_MATCH_CLOSURE)
  && (negb (has_flag mask G_SIGNAL_MATCH_FUNC) || (callback h =? func)%N)
  && (negb (has_flag mask G_SIGNAL_MATCH_DATA) || (data h =? data_)%N).

(** [g_signal_handlers_disconnect_matched]: "Passing at least one of the
    G_SIGNAL_MATCH_CLOSURE, G_SIGNAL_MATCH_FUNC or G_SIGNAL_MATCH_DATA match
    flags is required for successful matches"; the number of handlers
    disconnected is returned. *)
Definition disconnect_matched (s : settings) (mask id : Z)
    (det : option string) (closure func data_ : gpointer) (st : state)
  : Z * state :=
  if has_flag mask (Z.lor G_SIGNAL_MATCH_CLOSURE
                          (Z.lor G_SIGNAL_MATCH_FUNC G_SIGNAL_MATCH_DATA))
  then
    let hit := handler_matches s mask id det closure func data_ in
    (Z.of_nat (length (List.filter hit (handlers st))),
     set_handlers (List.filter (λ h, negb (hit h)) (handlers st))
                  (next_handler st) st)
  else (0%Z, st).

Definition disconnect (s : settings) (id : Z) (st : state) : state :=
  set_handlers
    (List.filter
       (λ h, negb (bool_decide (instance h = object_id s)
                   && (handler_id h =? id)%Z))
       (handlers st))
    (next_handler st) st.

#[export] Instance glib : Provider := {|
  provider_state := state;
  GSettings := settings;
  GVariant := variant;
  GQuark := option string;
  g_settings_new := new;
  g_settings_list_keys := list_keys;
  g_settings_get_boolean := read_boolean;
  g_settings_set_boolean := λ s k v, write s k (VBool v);
  g_settings_get_int := read_int;
  g_settings_set_int := λ s k v, write s k (VInt32 v);
  g_settings_get_double := read_double;
  g_settings_set_double := λ s k v, write s k (VDouble v);
  g_settings_get_string := read_string;
  g_settings_set_string := write_string;
  g_settings_get_enum := read_enum;
  g_settings_set_enum := write_enum;
  g_settings_get_value := read_value;
  g_settings_set_value := write_value;
  g_settings_reset := reset_key;
  g_settings_bind := bind_key;
  g_quark_from_string := λ s, s;
  g_signal_connect := connect;
  g_signal_handlers_disconnect_matched := disconnect_matched;
  g_signal_handler_disconnect := disconnect;
|}.

(** *** The running example: prefix [org.ex.app], schema [general] *)

Definition general_keys : list (string * key_spec) :=
  [("window.width",
    {| default_value := VInt32 800; range := Some (100, 4000)%Z; choices := [] |});
   ("window.title",
    {| default_value := VString "untitled"; range := None; choices := [] |});
   ("toolbar.style",
    {| default_value := VString "icons"; range := None;
       choices := [("icons", 0%Z); ("text", 1%Z); ("both", 2%Z)] |})].

Definition provider0 : state :=
  {| installed := [("org.ex.app.general", general_keys);
                   ("org.ex.app.empty", [])];
     next_object := 1%positive; values := ∅; handlers := [];
     next_handler := 1; bindings := [] |}.

(** The process right after [gnc_gsettings_set_prefix ("org.ex.app")]. *)
Definition world0 : world glib :=
  {| gsettings_prefix := Some "org.ex.app"; schema_hash := None;
     backend := provider0; log := [] |}.

(** The object the first resolution of [general] makes, and the process
    after it. *)
Definition general_obj : settings :=
  {| object_id := 1; schema_id := "org.ex.app.general";
     schema_keys := general_keys |}.

Definition provider1 : state :=
  {| installed := installed provider0; next_object := 2%positive;
     values := ∅; handlers := []; next_handler := 1; bindings := [] |}.

Definition world1 : world glib :=
  {| gsettings_prefix := Some "org.ex.app";
     schema_hash := Some {[ "org.ex.app.general" := general_obj ]};
     backend := provider1; log := [] |}.

(** The handlers two registrations connect, [register_cb (general, NULL,
    7, 9)] and then [register_cb (general, NULL, 8, 9)], and the process
    after each. *)
Definition handler1 : handler :=
  {| handler_id := 1; instance := 1; signal_id := changed_signal_id;
     detail := None; callback := 7%N; data := 9%N |}.

Definition handler2 : handler :=
  {| handler_id := 2; instance := 1; signal_id := changed_signal_id;
     detail := None; callback := 8%N; data := 9%N |}.

Definition world_registered : world glib :=
  {| gsettings_prefix := Some "org.ex.app";
     schema_hash := Some {[ "org.ex.app.general" := general_obj ]};
     backend := set_handlers [handler1] 2 provider1; log := [] |}.

Definition world_registered_twice : world glib :=
  {| gsettings_prefix := Some "org.ex.app";
     schema_hash := Some {[ "org.ex.app.general" := general_obj ]};
     backend := set_handlers [handler1; handler2] 3 provider1; log := [] |}.

(** The same first registration with the key [window.width]. *)
Definition handler1_width : handler :=
  {| handler_id := 1; instance := 1; signal_id := changed_signal_id;
     detail := Some "window.width"; callback := 7%N; data := 9%N |}.

Definition world_registered_width : world glib :=
  {| gsettings_prefix := Some "org.ex.app";
     schema_hash := Some {[ "org.ex.app.general" := general_obj ]};
     backend := set_handlers [handler1_width] 2 provider1; log := [] |}.

(** Some calls of a session. *)
Definition session : list (backend_call glib) :=
  [ set_int (Some "general") (Some "window.width") 1024;
    get_int (Some "org.ex.app.general") (Some "window.width");
    get_bool (Some "nosuch") (Some "flag");
    register_cb (Some "general") (Some "window.width") 7%N 9%N;
    reset_group (Some "general") ].

End GLibModel.

(** ** Migration from GConf *)

Module Migration.
Import Prefs.

Definition dquote : string := String (Ascii.ascii_of_nat 34) EmptyString.
Definition newline : string := String (Ascii.ascii_of_nat 10) EmptyString.

(** *** The external entity loader *)

(** The loop over [URL]: [iter] and [lastsegment] point into the same
    string, so each is the rest of the string from where it points. *)
Fixpoint last_segment_from (iter lastsegment : string) : string :=
  match iter with
  | EmptyString => lastsegment
  | String c rest =>
      last_segment_from rest (if Ascii.eqb c "/"%char then rest else lastsegment)
  end.

Definition lastsegment_of (URL : string) : string := last_segment_from URL URL.

(** Whether a string holds a slash. *)
Fixpoint has_slash (s : string) : bool :=
  match s with
  | EmptyString => false
  | String c rest => Ascii.eqb c "/"%char || has_slash rest
  end.

(** [xmlStrdup] and [xmlStrcat] by content (the allocations succeed). *)
Definition xmlStrdup (cur : string) : string := cur.
Definition xmlStrcat (cur add : string) : string := cur ++ add.

(** A [warningSAXFunc] is a function pointer; [None] is [NULL]. *)
Record xmlSAXHandler := { warning : option positive }.
Record xmlParserCtxt := { sax : option xmlSAXHandler }.

(** [ctxt->sax->warning] when [ctxt] and [ctxt->sax] are not [NULL]. *)
Definition warning_of (ctxt : option xmlParserCtxt) : option positive :=
  c ← ctxt; h ← sax c; warning h.

(** [ctxt->sax->warning = f], where the source does it. *)
Definition with_warning (f : option positive) (ctxt : option xmlParserCtxt)
  : option xmlParserCtxt :=
  match ctxt with
  | Some {| sax := Some _ |} => Some {| sax := Some {| warning := f |} |}
  | _ => ctxt
  end.

(** [if (warning != NULL) ctxt->sax->warning = warning;] *)
Definition restore_warning (saved : option positive)
    (ctxt : option xmlParserCtxt) : option xmlParserCtxt :=
  match saved with
  | Some _ => with_warning saved ctxt
  | None => ctxt
  end.

Section EntityLoader.

Variable xmlParserInput : Type.

(** [g_build_filename (g_getenv ("HOME"), ".gnc-migration-tmp", NULL)]. *)
Variable tmpdir : string.

(** The static [defaultEntityLoader]; [None] is [NULL]. *)
Variable defaultEntityLoader :
  option (string → option string → option xmlParserCtxt → option xmlParserInput).

(** What a call leaves: the input returned, the parser context, and the
    warnings given through the saved [warning] function. *)
Record loaded := {
  ret : option xmlParserInput;
  ctxt_after : option xmlParserCtxt;
  warned : list (positive * string);
}.

(** The path of the second attempt. *)
Definition newURL_of (URL : string) : string :=
  xmlStrcat (xmlStrcat (xmlStrdup tmpdir) "/") (lastsegment_of URL).

(** [None]: the call does not return ([URL] is [NULL] and is read, or
    [defaultEntityLoader] is [NULL] and is called). *)
Definition xsltprocExternalEntityLoader
    (URL ID : option string) (ctxt : option xmlParserCtxt) : option loaded :=
  url ← URL;
  let saved := warning_of ctxt in
  let quiet := with_warning None ctxt in
  let first :=
    match defaultEntityLoader with
    | Some load => load url ID quiet
    | None => None
    end in
  match first with
  | Some input =>
      Some {| ret := Some input; ctxt_after := restore_warning saved quiet;
              warned := [] |}
  | None =>
      let newURL := newURL_of url in
      load ← defaultEntityLoader;
      match load newURL ID quiet with
      | Some input =>
          Some {| ret := Some input; ctxt_after := restore_warning saved quiet;
                  warned := [] |}
      | None =>
          Some {| ret := None; ctxt_after := restore_warning saved quiet;
                  warned :=
                    match saved with
                    | Some f =>
                        [(f, "failed to load external entity " ++ dquote
                             ++ url ++ dquote ++ newline)]
                    | None => []
                    end |}
      end
  end.

End EntityLoader.

Arguments ret {_} _.
Arguments ctxt_after {_} _.
Arguments warned {_} _.

(** *** The driver *)

(** A pointer to a stylesheet, a document or a [FILE]; [None] is [NULL]. *)
Abbreviation ptr := (option positive).

(** The calls the driver makes out of this file. *)
Inductive ext_call :=
| scm_c_eval_string (expr : string)
| xmlSubstituteEntitiesDefault (val : Z)
| set_xmlLoadExtDtdDefaultValue (val : Z)
| xmlGetExternalEntityLoader
| xmlSetExternalEntityLoader_xsltproc
| xsltParseStylesheetFile (filename : string)
| xmlParseFile (filename : string)
| xsltApplyStylesheet (style doc : ptr)
| fopen (path mode : string)
| xsltSaveResultToFile (file result style : ptr)
| fclose (file : ptr)
| scm_primitive_load (filename : string)
| xsltFreeStylesheet (style : ptr)
| xmlFreeDoc (doc : ptr)
| xsltCleanupGlobals
| xmlCleanupParser.

Section Driver.

(** All that lies outside this file: the interpreter, the file system, the
    XML and XSLT runtime, the settings database. *)
Variable host : Type.

(** What a call answers (a pointer, where it returns one) and what it leaves
    of the host; [None] when it does not return (a non-local exit of the
    interpreter, a crash). *)
Variable extern : ext_call → host → option (ptr * host).

Variable pkgdatadir : string.          (* gnc_path_get_pkgdatadir () *)
Variable HOME : option string.         (* g_getenv ("HOME") *)
Variable g_build_filename : list (option string) → string.

(** The process as the driver sees it: the host, this file's log, and the
    calls made so far. *)
Record process := {
  outside : host;
  log : list log_entry;
  calls : list ext_call;
}.

Definition D (A : Type) : Type := process → option (A * process).

#[local] Instance D_ret : MRet D := λ A a p, Some (a, p).
#[local] Instance D_bind : MBind D :=
  λ A B k m p, match m p with Some (a, p') => k a p' | None => None end.

Definition ext (c : ext_call) : D ptr :=
  λ p, match extern c (outside p) with
       | Some (r, h) =>
           Some (r, {| outside := h; log := log p; calls := calls p ++ [c] |})
       | None => None
       end.

Definition prepare_expr : string :=
  "(use-modules (gnucash app-utils))(migration-prepare)".
Definition run_expr : string :=
  "(use-modules (migrate-prefs-user))(run-migration)".
Definition cleanup_expr : string :=
  "(use-modules (gnucash app-utils))(migration-cleanup)".

Definition stylesheet_path : string :=
  g_build_filename [Some pkgdatadir; Some "make-prefs-migration-script.xsl"; None].
Definition input_path : string :=
  g_build_filename [Some pkgdatadir; Some "migratable-prefs.xml"; None].
Definition migr_dir : string :=
  g_build_filename [HOME; Some ".gnc-migration-tmp"; None].
Definition output_path : string :=
  g_build_filename [Some migr_dir; Some "migrate-prefs-user.scm"; None].

Definition gnc_gsettings_migrate_from_gconf : D unit :=
  ext (scm_c_eval_string prepare_expr);;
  ext (xmlSubstituteEntitiesDefault 1);;
  ext (set_xmlLoadExtDtdDefaultValue 1);;
  ext xmlGetExternalEntityLoader;;
  ext xmlSetExternalEntityLoader_xsltproc;;
  stylesheetptr ← ext (xsltParseStylesheetFile stylesheet_path);
  inputxml ← ext (xmlParseFile input_path);
  transformedxml ← ext (xsltApplyStylesheet stylesheetptr inputxml);
  outfile ← ext (fopen output_path "w");
  ext (xsltSaveResultToFile outfile transformedxml stylesheetptr);;
  ext (fclose outfile);;
  ext (scm_primitive_load output_path);;
  ext (scm_c_eval_string run_expr);;
  ext (xsltFreeStylesheet stylesheetptr);;
  ext (xmlFreeDoc inputxml);;
  ext (xmlFreeDoc transformedxml);;
  ext xsltCleanupGlobals;;
  ext xmlCleanupParser;;
  ext (scm_c_eval_string cleanup_expr);;
  mret tt.

(** The calls of a run that returns, in order: [style], [doc], [result] and
    [file] are what the parsers, the transformation and [fopen] answered. *)
Definition stages (style doc result file : ptr) : list ext_call :=
  [ scm_c_eval_string prepare_expr;
    xmlSubstituteEntitiesDefault 1;
    set_xmlLoadExtDtdDefaultValue 1;
    xmlGetExternalEntityLoader;
    xmlSetExternalEntityLoader_xsltproc;
    xsltParseStylesheetFile stylesheet_path;
    xmlParseFile input_path;
    xsltApplyStylesheet style doc;
    fopen output_path "w";
    xsltSaveResultToFile file result style;
    fclose file;
    scm_primitive_load output_path;
    scm_c_eval_string run_expr;
    xsltFreeStylesheet style;
    xmlFreeDoc doc;
    xmlFreeDoc result;
    xsltCleanupGlobals;
    xmlCleanupParser;
    scm_c_eval_string cleanup_expr ].

(** What the host answers to a run of calls made one after the other, and
    the host they leave; [None] when one of them does not return. *)
Fixpoint answers (cs : list ext_call) (h : host) : option (list ptr * host) :=
  match cs with
  | [] => Some ([], h)
  | c :: cs =>
      match extern c h with
      | Some (r, h1) =>
          match answers cs h1 with
          | Some (rs, h2) => Some (r :: rs, h2)
          | None => None
          end
      | None => None
      end
  end.

End Driver.

Arguments outside {_} _.
Arguments log {_} _.
Arguments calls {_} _.

(** *** A host to run the driver on

    The files that can be read, and the expressions and scripts the
    interpreter was given.  Parsing a file that is not there, and
    transforming without a stylesheet or a document, give [NULL]; every call
    returns. *)
Record sample_host := {
  files : list string;
  interpreted : list string;
}.

Definition sample_extern (c : ext_call) (h : sample_host)
  : option (ptr * sample_host) :=
  match c with
  | scm_c_eval_string e | scm_primitive_load e =>
      Some (None, {| files := files h; interpreted := interpreted h ++ [e] |})
  | xsltParseStylesheetFile f =>
      Some (if bool_decide (f ∈ files h) then Some 1%positive else None, h)
  | xmlParseFile f =>
      Some (if bool_decide (f ∈ files h) then Some 2%positive else None, h)
  | xsltApplyStylesheet (Some _) (Some _) => Some (Some 3%positive, h)
  | fopen path _ =>
      Some (Some 4%positive,
            {| files := path :: files h; interpreted := interpreted h |})
  | _ => Some (None, h)
  end.

Definition sample_build_filename (args : list (option string)) : string :=
  String.concat "/" (GStr.va_strings args).

Definition sample_migrate : process sample_host → option (unit * process sample_host) :=
  gnc_gsettings_migrate_from_gconf sample_host sample_extern
    "/usr/share/gnucash" (Some "/home/u") sample_build_filename.

(** A process in which the stylesheet is installed and the manifest is
    not. *)
Definition process_without_manifest : process sample_host :=
  {| outside :=
       {| files := ["/usr/share/gnucash/make-prefs-migration-script.xsl"];
          interpreted := [] |};
     log := []; calls := [] |}.

(** A default loader for examples: it finds one file, in the scratch
    directory. *)
Definition sample_loader (URL : string) (ID : option string)
    (ctxt : option xmlParserCtxt) : option string :=
  if String.eqb URL "/home/u/.gnc-migration-tmp/prefs.dtd"
  then Some "<!ELEMENT prefs ANY>" else None.

End Migration.

(** ** More of the facade: what the further properties speak of *)

Module PrefsMore.
Import GStr Names Prefs.

Section More.
Context {P : Provider}.

(** The schema name [s] is in the catalog of [w], as the object
    [settings]. *)
Definition resolved (s : option string) (w : world P) (settings : GSettings)
  : Prop :=
  ∃ name, normalized (gsettings_prefix w) s = Some name
          ∧ catalog w !! name = Some settings.

(** The body the six typed getters share, and the one the six typed
    setters share; each getter and setter of [Prefs] is an instance, by
    [reflexivity]. *)
Definition getter_shape {T} (func : string) (zero : T)
    (provider_get :
       GSettings → option string → provider_state → T * provider_state)
    (schema key : option string) : M P T :=
  schema_ptr ← gnc_gsettings_get_schema_ptr schema;
  match schema_ptr with
  | None =>
      g_return_if_fail_warning func "G_IS_SETTINGS (schema_ptr)";;
      mret zero
  | Some settings =>
      if gnc_gsettings_is_valid_key schema_ptr key
      then call (provider_get settings key)
      else PERR (invalid_key_msg key schema);; mret zero
  end.

Definition setter_shape {V} (func : string)
    (provider_set :
       GSettings → option string → V → provider_state → bool * provider_state)
    (schema key : option string) (value : V) : M P bool :=
  schema_ptr ← gnc_gsettings_get_schema_ptr schema;
  match schema_ptr with
  | None =>
      g_return_if_fail_warning func "G_IS_SETTINGS (schema_ptr)";;
      mret false
  | Some settings =>
      if gnc_gsettings_is_valid_key schema_ptr key
      then
        result ← call (provider_set settings key value);
        when (negb result) (PERR (unable_to_set_msg key schema));;
        mret result
      else PERR (invalid_key_msg key schema);; mret false
  end.

(** A provider reads back what it accepted: after a write that returned
    [TRUE], the getter of the same type answers the value written. *)
Definition reads_back {V}
    (provider_set :
       GSettings → option string → V → provider_state → bool * provider_state)
    (provider_get :
       GSettings → option string → provider_state → V * provider_state)
  : Prop :=
  ∀ settings key v b b',
    provider_set settings key v b = (true, b') →
    (provider_get settings key b').1 = v.

(** After a write through [set] that returned [TRUE], [get] with the same
    schema and key returns the value written. *)
Definition round_trip {V}
    (set : option string → option string → V → M P bool)
    (get : option string → option string → M P V) : Prop :=
  ∀ schema key v w w1,
    set schema key v w = Some (true, w1) →
    ∃ w2, get schema key w1 = Some (v, w2).

(** A provider answers [dflt] for a key that was just reset. *)
Definition reads_default {T}
    (provider_get :
       GSettings → option string → provider_state → T * provider_state)
    (dflt : GSettings → option string → T) : Prop :=
  ∀ settings key b,
    (provider_get settings key (g_settings_reset settings key b)).1
    = dflt settings key.

(** After [gnc_gsettings_reset] of a key the schema declares, [get] with
    the same schema and key returns [dflt]. *)
Definition reset_then_get {T}
    (get : option string → option string → M P T)
    (dflt : GSettings → option string → T) : Prop :=
  ∀ schema key w settings w0,
    gnc_gsettings_get_schema_ptr schema w = Some (Some settings, w0) →
    declared settings key →
    ∃ w1 w2,
      gnc_gsettings_reset schema key w = Some (tt, w1)
      ∧ get schema key w1 = Some (dflt settings key, w2).

(** A call only adds to the log. *)
Definition log_grows {A} (m : M P A) : Prop :=
  ∀ w a w1, m w = Some (a, w1) → log w `prefix_of` log w1.

(** The signal [gnc_gsettings_register_cb] connects to, by cases on the
    key. *)
Inductive signal_for (settings : GSettings)
  : option string → option string → Prop :=
| signal_no_key : signal_for settings None (Some "changed")
| signal_empty_key : signal_for settings (Some EmptyString) (Some "changed")
| signal_declared_key k :
    k ≠ EmptyString → declared settings (Some k) →
    signal_for settings (Some k) (Some ("changed::" ++ k))
| signal_undeclared_key k :
    k ≠ EmptyString → ¬ declared settings (Some k) →
    signal_for settings (Some k) None.

End More.
End PrefsMore.

(** ** More of the example provider *)

Module GLibModelMore.
Import Prefs GLibModel.

(** The default of an integer key, [0] for any other key. *)
Definition default_int (s : settings) (key : option string) : Z :=
  match spec_of s key with
  | Some {| default_value := VInt32 i |} => i
  | _ => 0%Z
  end.

(** Handler ids are given out in order: every connected handler has an id
    below the next one, which is positive. *)
Definition ids_in_order (st : state) : Prop :=
  (0 < next_handler st)%Z
  ∧ Forall (λ h, (handler_id h < next_handler st)%Z) (handlers st).

(** A process in which the provider has given out [2 ^ 32] handler ids, of
    which the first is still connected on [general]. *)
Definition world_wide_ids : world glib :=
  {| gsettings_prefix := Some "org.ex.app";
     schema_hash := Some {[ "org.ex.app.general" := general_obj ]};
     backend := set_handlers [handler1] (2 ^ 32 + 1) provider1; log := [] |}.

(** The process before [gnc_gsettings_set_prefix] is called. *)
Definition world_unset : world glib :=
  {| gsettings_prefix := None; schema_hash := None;
     backend := provider0; log := [] |}.

End GLibModelMore.

(** * Properties *)

(** ** Schema names *)

Module NamesTheory.
Import GStr Names.

Lemma prefix_append (p r : string) : String.prefix p (p ++ r) = true.
Proof.
  induction p as [|c p IH]; simpl; [destruct r; reflexivity|].
  destruct (Ascii.ascii_dec c c); [exact IH | congruence].
Qed.

Lemma length_string_app (a b : string) :
  String.length (a ++ b) = String.length a + String.length b.
Proof. induction a as [|c a IH]; simpl; [reflexivity | by rewrite IH]. Qed.

Lemma append_longer (p n : string) : n ≠ p ++ "." ++ n.
Proof.
  intros E. apply (f_equal String.length) in E.
  rewrite !length_string_app in E. simpl in E. lia.
Qed.

(** With the prefix set the call allocates one string, holding
    [normalized_text], and leaves the heap as it was otherwise. *)
Lemma normalize_allocates (prefix : string) (name : option string) (h : heap) :
  ∃ a, gnc_gsettings_normalize_schema_name (Some prefix) name h
       = (Some a, <[a := normalized_text prefix name]> h)
       ∧ h !! a = None.
Proof.
  unfold gnc_gsettings_normalize_schema_name, normalized_text, g_strdup, g_strjoin.
  destruct name as [n|]; simpl; [destruct (String.prefix prefix n); simpl|].
  all: exists (fresh (dom h)); split;
         [reflexivity | apply not_elem_of_dom, is_fresh].
Qed.

Lemma normalized_set_prefix (prefix : string) (name : option string) :
  normalized (Some prefix) name = Some (normalized_text prefix name).
Proof.
  unfold normalized.
  destruct (normalize_allocates prefix name ∅) as (a & -> & _).
  simpl. apply lookup_insert_eq.
Qed.

(** The text does not depend on the heap the call starts from. *)
Lemma normalize_content_any_heap (prefix name : option string) (h : heap) :
  let '(p, h') := gnc_gsettings_normalize_schema_name prefix name h in
  deref p h' = normalized prefix name.
Proof.
  destruct prefix as [prefix|].
  - rewrite normalized_set_prefix.
    destruct (normalize_allocates prefix name h) as (a & -> & _).
    simpl. apply lookup_insert_eq.
  - unfold normalized, gnc_gsettings_normalize_schema_name.
    destruct name as [n|]; simpl; [|reflexivity].
    unfold g_strjoin; simpl. rewrite !lookup_insert_eq. reflexivity.
Qed.

(** C2, as the code has it.  For every prefix, name and heap,
    [gnc_gsettings_normalize_schema_name] returns a pointer to a string
    that was not allocated before (every earlier allocation stays as it
    was), and the string is: the prefix when the name is [NULL]; the name
    when the name starts with the prefix; the prefix, a dot and the name
    otherwise, the empty name included. *)
Theorem normalize_schema_name_cases
    (prefix : string) (name : option string) (h : heap) :
  ∃ a h',
    gnc_gsettings_normalize_schema_name (Some prefix) name h = (Some a, h')
    ∧ h !! a = None
    ∧ (∀ b, b ≠ a → h' !! b = h !! b)
    ∧ h' !! a = Some (match name with
                      | None => prefix
                      | Some n =>
                          if String.prefix prefix n then n
                          else prefix ++ "." ++ n
                      end).
Proof.
  destruct (normalize_allocates prefix name h) as (a & E & Hfresh).
  exists a, (<[a := normalized_text prefix name]> h).
  split; [exact E|]. split; [exact Hfresh|]. split.
  - intros b Hb. apply lookup_insert_ne. congruence.
  - apply lookup_insert_eq.
Qed.

(** C2, as the claim states it, fails on the empty name: with prefix
    [org.ex.app] the empty name gives [org.ex.app.], not the prefix
    alone. *)
Lemma normalize_empty_name_is_not_prefix :
  normalized (Some "org.ex.app") (Some EmptyString) = Some "org.ex.app."
  ∧ normalized (Some "org.ex.app") (Some EmptyString) ≠ Some "org.ex.app".
Proof. split; [reflexivity | discriminate]. Qed.

(** C9.  Whatever follows the prefix in the name (a dot or not), a name
    that begins with the prefix comes back as a new copy of itself, which
    is not the prefix, a dot and the name. *)
Theorem normalize_prefix_test_is_textual (prefix rest : string) (h : heap) :
  ∃ a, gnc_gsettings_normalize_schema_name (Some prefix) (Some (prefix ++ rest)) h
       = (Some a, <[a := prefix ++ rest]> h)
       ∧ h !! a = None
       ∧ prefix ++ rest ≠ prefix ++ "." ++ (prefix ++ rest).
Proof.
  destruct (normalize_allocates prefix (Some (prefix ++ rest)) h)
    as (a & E & Hfresh).
  exists a. unfold normalized_text in E. rewrite prefix_append in E.
  split; [exact E|]. split; [exact Hfresh|]. apply append_longer.
Qed.

Lemma append_empty (p : string) : p ++ EmptyString = p.
Proof.
  induction p as [|c p IH]; [reflexivity|].
  change (String c (p ++ EmptyString) = String c p). by rewrite IH.
Qed.

Lemma prefix_refl (p : string) : String.prefix p p = true.
Proof. rewrite <- (append_empty p) at 2. apply prefix_append. Qed.

(** Normalizing a normalized name changes nothing. *)
Theorem normalize_idempotent (prefix : string) (name : option string) :
  normalized (Some prefix) (normalized (Some prefix) name)
  = normalized (Some prefix) name.
Proof.
  rewrite !normalized_set_prefix. f_equal.
  unfold normalized_text at 1.
  destruct name as [n|]; simpl.
  - destruct (String.prefix prefix n) eqn:E; [by rewrite E|].
    by rewrite prefix_append.
  - by rewrite prefix_refl.
Qed.

(** The example of C9: [org.ex.application] under the prefix
    [org.ex.app]. *)
Example normalize_application :
  normalized (Some "org.ex.app") (Some "org.ex.application")
  = Some "org.ex.application".
Proof. reflexivity. Qed.

End NamesTheory.

(** ** The facade, over any provider *)

Module PrefsTheory.
Import GStr Names Prefs.

Ltac unfold_M :=
  unfold mbind, mret, M_bind, M_ret, gets, modify, call, call_, PERR, PWARN,
    g_return_if_fail_warning, when, crash in *.

Section Catalog.
Context {P : Provider}.

Implicit Types (w : world P) (s x : option string) (name : string).

Lemma get_schema_ptr_cached s w name gset :
  normalized (gsettings_prefix w) s = Some name →
  catalog w !! name = Some gset →
  gnc_gsettings_get_schema_ptr s w = Some (Some gset, w).
Proof.
  intros Hn Hc. unfold gnc_gsettings_get_schema_ptr. unfold_M.
  destruct w as [p [t|] b l]; unfold catalog in *; simpl in *.
  - rewrite Hn. simpl. rewrite Hc. reflexivity.
  - rewrite lookup_empty in Hc. discriminate.
Qed.

Lemma get_schema_ptr_miss s w name :
  normalized (gsettings_prefix w) s = Some name →
  catalog w !! name = None →
  gnc_gsettings_get_schema_ptr s w =
  Some (match g_settings_new name (backend w) with
        | (Some gset, b) => (Some gset, after_created name gset b w)
        | (None, b) => (None, after_unknown name b w)
        end).
Proof.
  intros Hn Hc. unfold gnc_gsettings_get_schema_ptr. unfold_M.
  destruct w as [p t b l]; unfold catalog in *; simpl in *.
  rewrite Hn.
  destruct t as [t|]; simpl in *; rewrite Hc; simpl;
    destruct (g_settings_new name b) as [[gset|] b']; reflexivity.
Qed.

Lemma get_schema_ptr_null_name s w :
  normalized (gsettings_prefix w) s = None →
  gnc_gsettings_get_schema_ptr s w = None.
Proof.
  intros Hn. unfold gnc_gsettings_get_schema_ptr. unfold_M.
  destruct w as [p [t|] b l]; simpl in *; rewrite Hn; reflexivity.
Qed.

(** Resolution returns whenever the prefix is set. *)
Lemma get_schema_ptr_returns s w prefix :
  gsettings_prefix w = Some prefix →
  ∃ r w1, gnc_gsettings_get_schema_ptr s w = Some (r, w1).
Proof.
  intros Hp.
  pose proof (NamesTheory.normalized_set_prefix prefix s) as Hn.
  rewrite <- Hp in Hn.
  destruct (catalog w !! normalized_text prefix s) as [gset|] eqn:Hc.
  - eexists _, _. eapply get_schema_ptr_cached; eassumption.
  - rewrite (get_schema_ptr_miss _ _ _ Hn Hc).
    destruct (g_settings_new _ _) as [[gset|] b]; eexists _, _; reflexivity.
Qed.

(** Every outcome of a resolution, sorted by what the catalog held. *)
Lemma get_schema_ptr_inv s w r w1 :
  gnc_gsettings_get_schema_ptr s w = Some (r, w1) →
  ∃ name, normalized (gsettings_prefix w) s = Some name ∧
    ((∃ gset, catalog w !! name = Some gset ∧ r = Some gset ∧ w1 = w)
     ∨ (catalog w !! name = None ∧
        ∃ b, g_settings_new name (backend w) = (r, b) ∧
             w1 = match r with
                  | Some gset => after_created name gset b w
                  | None => after_unknown name b w
                  end)).
Proof.
  intros E.
  destruct (normalized (gsettings_prefix w) s) as [name|] eqn:Hn;
    [|rewrite (get_schema_ptr_null_name _ _ Hn) in E; discriminate].
  exists name. split; [reflexivity|].
  destruct (catalog w !! name) as [gset|] eqn:Hc.
  - rewrite (get_schema_ptr_cached _ _ _ _ Hn Hc) in E.
    injection E as <- <-. left. eauto.
  - rewrite (get_schema_ptr_miss _ _ _ Hn Hc) in E. right. split; [reflexivity|].
    destruct (g_settings_new name (backend w)) as [[gset|] b];
      injection E as <- <-; eauto.
Qed.


Lemma steady_ret {A} (a : A) : steady (mret a).
Proof. intros w a' w1 [= <- <-]. split; reflexivity. Qed.

Lemma steady_bind {A B} (m : M P A) (k : A → M P B) :
  steady m → (∀ a, steady (k a)) → steady (m ≫= k).
Proof.
  intros Hm Hk w b w2. unfold mbind, M_bind.
  destruct (m w) as [[a w1]|] eqn:E; [|discriminate].
  intros E2. destruct (Hm _ _ _ E) as [Hp1 Hc1].
  destruct (Hk _ _ _ _ E2) as [Hp2 Hc2]. split; [congruence|].
  etrans; eassumption.
Qed.

Lemma steady_crash {A} : steady (crash : M P A).
Proof. intros w a w1 [=]. Qed.

Lemma steady_call {A} (op : provider_state → A * provider_state) :
  steady (call op).
Proof.
  intros w a w1. unfold call. destruct (op (backend w)).
  intros [= <- <-]. split; reflexivity.
Qed.

Lemma steady_call_ (op : provider_state → provider_state) : steady (call_ op).
Proof. intros w a w1 [= <- <-]. split; reflexivity. Qed.

Lemma steady_add_log e : steady (modify (add_log e) : M P unit).
Proof. intros w a w1 [= <- <-]. split; reflexivity. Qed.

Lemma steady_when c (m : M P unit) : steady m → steady (when c m).
Proof. intros Hm. destruct c; [exact Hm | apply steady_ret]. Qed.

Lemma steady_get_schema_ptr s : steady (gnc_gsettings_get_schema_ptr s).
Proof.
  intros w r w1 E.
  destruct (get_schema_ptr_inv _ _ _ _ E)
    as (name & Hn & [(gset & Hc & -> & ->) | (Hc & b & Hnew & ->)]).
  - split; reflexivity.
  - destruct r as [gset|]; simpl; split; try reflexivity.
    unfold catalog at 2; simpl. by apply insert_subseteq.
Qed.

Lemma steady_PERR msg : steady (PERR msg : M P unit).
Proof. apply steady_add_log. Qed.

Lemma steady_PWARN msg : steady (PWARN msg : M P unit).
Proof. apply steady_add_log. Qed.

Lemma steady_g_return_if_fail_warning func expr :
  steady (g_return_if_fail_warning func expr : M P unit).
Proof. apply steady_add_log. Qed.

End Catalog.

Create HintDb steady.

#[export] Hint Resolve steady_ret steady_crash steady_call steady_call_
  steady_PERR steady_PWARN steady_g_return_if_fail_warning
  steady_get_schema_ptr : steady.

Ltac head_of t := lazymatch t with ?f _ => head_of f | _ => t end.

(** Unfold the function an equation's left side applies. *)
Ltac unfold_lhs_head :=
  lazymatch goal with
  | |- ?l = _ => let f := head_of l in unfold f
  end.

(** One step through a facade function's body. *)
Ltac steady_step :=
  lazymatch goal with
  | |- steady (mbind _ _) => apply steady_bind; [|intros ?]
  | |- steady (when _ _) => apply steady_when
  | |- steady (match ?x with _ => _ end) => destruct x
  | |- _ => solve [eauto with steady]
  end.

Ltac steady_body := cbv zeta; repeat steady_step.

Section Calls.
Context {P : Provider}.

Implicit Types (w : world P) (s x : option string) (name : string).

Lemma steady_reset s k : steady (gnc_gsettings_reset s k).
Proof. unfold gnc_gsettings_reset. steady_body. Qed.

Lemma steady_reset_each s keys : steady (reset_each s keys).
Proof.
  induction keys as [|k keys IH]; simpl; [apply steady_ret|].
  apply steady_bind; [apply steady_reset | intros _; exact IH].
Qed.

Lemma steady_perform (c : backend_call P) : steady (perform c).
Proof.
  destruct c; unfold perform;
    unfold gnc_gsettings_register_any_cb, gnc_gsettings_remove_any_cb_by_func;
    unfold gnc_gsettings_register_cb, gnc_gsettings_remove_cb_by_func,
      gnc_gsettings_remove_cb_by_id, gnc_gsettings_bind,
      gnc_gsettings_get_bool, gnc_gsettings_get_int, gnc_gsettings_get_float,
      gnc_gsettings_get_string, gnc_gsettings_get_enum, gnc_gsettings_get_value,
      gnc_gsettings_set_bool, gnc_gsettings_set_int, gnc_gsettings_set_float,
      gnc_gsettings_set_string, gnc_gsettings_set_enum, gnc_gsettings_set_value,
      gnc_gsettings_reset_schema;
    try apply steady_reset; steady_body; apply steady_reset_each.
Qed.

Lemma steady_perform_all (cs : list (backend_call P)) : steady (perform_all cs).
Proof.
  induction cs as [|c cs IH]; simpl; [apply steady_ret|].
  apply steady_bind; [apply steady_perform | intros _; exact IH].
Qed.

(** A schema once in the catalog is what every later resolution of the
    same name returns, and the resolution changes nothing. *)
Lemma get_schema_ptr_stays s w name gset (m : M P unit) w' :
  steady m →
  normalized (gsettings_prefix w) s = Some name →
  catalog w !! name = Some gset →
  m w = Some (tt, w') →
  gnc_gsettings_get_schema_ptr s w' = Some (Some gset, w').
Proof.
  intros Hm Hn Hc E. destruct (Hm _ _ _ E) as [Hp Hsub].
  apply get_schema_ptr_cached with name; [by rewrite Hp|].
  eapply lookup_weaken; eassumption.
Qed.

(** After a resolution that returned a schema, the schema is in the
    catalog under the normalized name. *)
Lemma get_schema_ptr_records s w gset w1 :
  gnc_gsettings_get_schema_ptr s w = Some (Some gset, w1) →
  ∃ name, normalized (gsettings_prefix w1) s = Some name
          ∧ catalog w1 !! name = Some gset.
Proof.
  intros E.
  destruct (get_schema_ptr_inv _ _ _ _ E)
    as (name & Hn & [(g & Hc & [= ->] & ->) | (Hc & b & Hnew & ->)]);
    exists name; split; try assumption.
  unfold catalog; simpl. apply lookup_insert_eq.
Qed.

(** *** The key validator *)


Lemma key_found_iff key keys :
  key_found key keys = true ↔ ∃ k, key = Some k ∧ k ∈ keys.
Proof.
  induction keys as [|k0 keys IH]; simpl.
  - split; [discriminate | intros (k & _ & Hk); inversion Hk].
  - destruct key as [k|]; simpl.
    + destruct (String.eqb_spec k k0) as [->|Hne].
      * split; [|reflexivity]. intros _. exists k0. split; [reflexivity | left].
      * rewrite IH. split; intros (k' & [= <-] & Hk); exists k;
          (split; [reflexivity|]); [by right | by inversion Hk; subst].
    + rewrite IH. split; intros (k' & [=] & _).
Qed.

Lemma is_valid_key_iff settings key :
  gnc_gsettings_is_valid_key (Some settings) key = true ↔ declared settings key.
Proof. apply key_found_iff. Qed.

Lemma is_valid_key_false settings key :
  ¬ declared settings key →
  gnc_gsettings_is_valid_key (Some settings) key = false.
Proof.
  intros H. apply not_true_is_false. by rewrite is_valid_key_iff.
Qed.

(** *** Typed accessors *)



Lemma set_backend_same w : set_backend (backend w) w = w.
Proof. by destruct w. Qed.

(** The key validator: a key is valid in a schema object when it is one
    of the keys the object lists; no key is valid without an object, and no
    key ([NULL]) is never valid. *)
Theorem valid_key_iff_listed (settings : GSettings) (key : option string) :
  (gnc_gsettings_is_valid_key (Some settings) key = true
   ↔ ∃ k, key = Some k ∧ k ∈ g_settings_list_keys settings)
  ∧ gnc_gsettings_is_valid_key None key = false
  ∧ gnc_gsettings_is_valid_key (Some settings) None = false.
Proof.
  split; [apply key_found_iff|]. split; [reflexivity|].
  apply not_true_is_false. intros H.
  apply key_found_iff in H as (k & [=] & _).
Qed.

(** A resolution depends on the name through its normalized text only. *)
Lemma get_schema_ptr_by_text s s' w :
  normalized (gsettings_prefix w) s = normalized (gsettings_prefix w) s' →
  gnc_gsettings_get_schema_ptr s w = gnc_gsettings_get_schema_ptr s' w.
Proof.
  intros E. unfold gnc_gsettings_get_schema_ptr. unfold_M. by rewrite E.
Qed.

(** A short name and its qualified form resolve alike (scenario 5): for a
    name that does not itself begin with the prefix, resolving
    [prefix.name] does what resolving [name] does. *)
Theorem resolve_short_or_qualified w prefix name :
  gsettings_prefix w = Some prefix →
  String.prefix prefix name = false →
  gnc_gsettings_get_schema_ptr (Some (prefix ++ "." ++ name)) w
  = gnc_gsettings_get_schema_ptr (Some name) w.
Proof.
  intros Hp Hn. apply get_schema_ptr_by_text.
  rewrite Hp, !NamesTheory.normalized_set_prefix. simpl.
  by rewrite NamesTheory.prefix_append, Hn.
Qed.

(** C3.  Once a resolution of [x] has returned a schema, every later
    resolution of [x] in the process (after any calls through the backend's
    entry points) returns that same object and changes nothing.  A resolution
    that fails adds nothing to the catalog, and the next resolution of [x]
    asks the provider again: its outcome is the provider's answer to a new
    [g_settings_new]. *)
Theorem resolve_same_object_for_life x w :
  (∀ gset w1 cs w2,
     gnc_gsettings_get_schema_ptr x w = Some (Some gset, w1) →
     perform_all cs w1 = Some (tt, w2) →
     gnc_gsettings_get_schema_ptr x w2 = Some (Some gset, w2))
  ∧ (∀ w1,
       gnc_gsettings_get_schema_ptr x w = Some (None, w1) →
       ∃ name,
         normalized (gsettings_prefix w) x = Some name
         ∧ catalog w1 = catalog w
         ∧ catalog w1 !! name = None
         ∧ gnc_gsettings_get_schema_ptr x w1 =
           Some (match g_settings_new name (backend w1) with
                 | (Some gset, b) => (Some gset, after_created name gset b w1)
                 | (None, b) => (None, after_unknown name b w1)
                 end)).
Proof.
  split.
  - intros gset w1 cs w2 E Hrun.
    destruct (get_schema_ptr_records _ _ _ _ E) as (name & Hn & Hc).
    eapply get_schema_ptr_stays; [apply steady_perform_all | | | ]; eassumption.
  - intros w1 E.
    destruct (get_schema_ptr_inv _ _ _ _ E)
      as (name & Hn & [(g & Hc & [=] & _) | (Hc & b & Hnew & ->)]).
    exists name. split; [exact Hn|]. split; [reflexivity|].
    split; [exact Hc|].
    apply get_schema_ptr_miss; [exact Hn | exact Hc].
Qed.

(** C4.  Each of the six typed getters returns its type's zero ([FALSE],
    [0], [0.0], [NULL], [0], [NULL]) and logs an error, without calling the
    provider, when the schema does not resolve or does not declare the key;
    when both checks pass it returns what the provider's getter answers. *)
Theorem getters_check_then_forward :
  getter_contract "gnc_gsettings_get_bool" gnc_gsettings_get_bool
                  false g_settings_get_boolean
  ∧ getter_contract "gnc_gsettings_get_int" gnc_gsettings_get_int
                    0%Z g_settings_get_int
  ∧ getter_contract "gnc_gsettings_get_float" gnc_gsettings_get_float
                    0%float g_settings_get_double
  ∧ getter_contract "gnc_gsettings_get_string" gnc_gsettings_get_string
                    None g_settings_get_string
  ∧ getter_contract "gnc_gsettings_get_enum" gnc_gsettings_get_enum
                    0%Z g_settings_get_enum
  ∧ getter_contract "gnc_gsettings_get_value" gnc_gsettings_get_value
                    None g_settings_get_value.
Proof.
  repeat split; intros; subst;
    match goal with
    | H : ¬ declared _ _ |- _ => apply is_valid_key_false in H
    | H : declared _ _ |- _ => apply is_valid_key_iff in H
    | _ => idtac
    end;
    unfold_lhs_head; unfold_M;
    match goal with
    | E : gnc_gsettings_get_schema_ptr _ _ = _ |- _ => rewrite E
    end;
    try match goal with
      | H : gnc_gsettings_is_valid_key _ _ = _ |- _ => rewrite H
      end;
    try reflexivity;
    match goal with
    | |- context [let '(_, _) := ?c in _] => destruct c; reflexivity
    end.
Qed.

(** C5.  Each of the six typed setters returns [FALSE] and logs an error,
    without calling the provider, when the schema does not resolve or does
    not declare the key; when both checks pass it returns the provider's
    result, and when that is [FALSE] it logs [Unable to set value ...] and
    adds nothing else to what the provider left. *)
Theorem setters_check_then_forward :
  setter_contract "gnc_gsettings_set_bool" gnc_gsettings_set_bool
                  g_settings_set_boolean
  ∧ setter_contract "gnc_gsettings_set_int" gnc_gsettings_set_int
                    g_settings_set_int
  ∧ setter_contract "gnc_gsettings_set_float" gnc_gsettings_set_float
                    g_settings_set_double
  ∧ setter_contract "gnc_gsettings_set_string" gnc_gsettings_set_string
                    g_settings_set_string
  ∧ setter_contract "gnc_gsettings_set_enum" gnc_gsettings_set_enum
                    g_settings_set_enum
  ∧ setter_contract "gnc_gsettings_set_value" gnc_gsettings_set_value
                    g_settings_set_value.
Proof.
  repeat split; intros; subst;
    match goal with
    | H : ¬ declared _ _ |- _ => apply is_valid_key_false in H
    | H : declared _ _ |- _ => apply is_valid_key_iff in H
    | _ => idtac
    end;
    unfold_lhs_head; unfold_M;
    match goal with
    | E : gnc_gsettings_get_schema_ptr _ _ = _ |- _ => rewrite E
    end;
    try match goal with
      | H : gnc_gsettings_is_valid_key _ _ = _ |- _ => rewrite H
      end;
    try reflexivity;
    match goal with
    | E : _ = (_, _) |- _ => rewrite E
    end;
    try (rewrite set_backend_same); try reflexivity;
    match goal with
    | |- context [if ?r then _ else _] => destruct r; reflexivity
    end.
Qed.

(** *** Reset *)


Lemma reset_all_permutation settings keys keys' b :
  resets_commute → keys ≡ₚ keys' →
  reset_all settings keys b = reset_all settings keys' b.
Proof.
  intros Hcomm Hperm. revert b.
  induction Hperm as [|k l l' _ IH|k1 k2 l|l l' l'' _ IH1 _ IH2]; intros b; simpl.
  - reflexivity.
  - apply IH.
  - unfold reset_all; simpl. by rewrite Hcomm.
  - by rewrite IH1, IH2.
Qed.

(** With the schema in the catalog, a reset of a key it declares is the
    provider's reset and nothing else: no log entry, no other change. *)
Lemma reset_cached_declared s k w name settings :
  normalized (gsettings_prefix w) s = Some name →
  catalog w !! name = Some settings →
  k ∈ g_settings_list_keys settings →
  gnc_gsettings_reset s (Some k) w
  = Some (tt, set_backend (g_settings_reset settings (Some k) (backend w)) w).
Proof.
  intros Hn Hc Hk. unfold gnc_gsettings_reset. unfold_M.
  rewrite (get_schema_ptr_cached _ _ _ _ Hn Hc).
  assert (gnc_gsettings_is_valid_key (Some settings) (Some k) = true) as ->
    by (apply is_valid_key_iff; exists k; auto).
  reflexivity.
Qed.

Lemma reset_each_cached s keys w name settings :
  normalized (gsettings_prefix w) s = Some name →
  catalog w !! name = Some settings →
  (∀ k, k ∈ keys → k ∈ g_settings_list_keys settings) →
  reset_each s keys w
  = Some (tt, set_backend (reset_all settings keys (backend w)) w).
Proof.
  revert w. induction keys as [|k keys IH]; intros w Hn Hc Hin; simpl.
  - by rewrite set_backend_same.
  - unfold mbind, M_bind.
    rewrite (reset_cached_declared _ _ _ _ _ Hn Hc) by (apply Hin; left).
    rewrite IH; [by destruct w | exact Hn | exact Hc |].
    intros k' Hk'. apply Hin. by right.
Qed.

(** The first reset of a loop resolves the schema as the caller did. *)
Lemma reset_after_resolution s k w settings w1 :
  gnc_gsettings_get_schema_ptr s w = Some (Some settings, w1) →
  gnc_gsettings_reset s k w = gnc_gsettings_reset s k w1.
Proof.
  intros E.
  destruct (get_schema_ptr_records _ _ _ _ E) as (name & Hn & Hc).
  unfold gnc_gsettings_reset, mbind, M_bind.
  by rewrite E, (get_schema_ptr_cached _ _ _ _ Hn Hc).
Qed.

Lemma reset_schema_unfold s w settings w1 :
  gnc_gsettings_get_schema_ptr s w = Some (Some settings, w1) →
  gnc_gsettings_reset_schema s w
  = reset_each s (g_settings_list_keys settings) w1.
Proof.
  intros E. unfold gnc_gsettings_reset_schema, mbind, M_bind. by rewrite E.
Qed.

(** C6.  For a schema that resolves, to [settings] and leaving [w1], and
    for [keys] the declared keys in any order: [gnc_gsettings_reset_schema]
    does what [gnc_gsettings_reset] on each of [keys] in turn does, which is
    the provider's reset of each key and nothing else; with no key declared it
    does nothing beyond the resolution.  The order is free when the
    provider's resets commute. *)
Theorem reset_schema_resets_each_key s w settings w1 keys :
  resets_commute →
  gnc_gsettings_get_schema_ptr s w = Some (Some settings, w1) →
  keys ≡ₚ g_settings_list_keys settings →
  gnc_gsettings_reset_schema s w = reset_each s keys w1
  ∧ (keys ≠ [] → gnc_gsettings_reset_schema s w = reset_each s keys w)
  ∧ gnc_gsettings_reset_schema s w
    = Some (tt, set_backend (reset_all settings keys (backend w1)) w1)
  ∧ (keys = [] → gnc_gsettings_reset_schema s w = Some (tt, w1)).
Proof.
  intros Hcomm E Hperm.
  destruct (get_schema_ptr_records _ _ _ _ E) as (name & Hn & Hc).
  assert (Hall : gnc_gsettings_reset_schema s w
                 = Some (tt, set_backend (reset_all settings keys (backend w1)) w1)).
  { rewrite (reset_schema_unfold _ _ _ _ E).
    rewrite (reset_each_cached _ _ _ _ _ Hn Hc) by auto.
    by rewrite (reset_all_permutation _ _ _ _ Hcomm Hperm). }
  assert (Heach : reset_each s keys w1
                  = Some (tt, set_backend (reset_all settings keys (backend w1)) w1)).
  { apply (reset_each_cached _ _ _ _ _ Hn Hc).
    intros k Hk. by rewrite <- Hperm. }
  split; [by rewrite Hall, Heach|]. split; [|split; [exact Hall|]].
  - intros Hne. rewrite Hall, <- Heach.
    destruct keys as [|k keys]; [done|]. simpl. unfold mbind, M_bind.
    by rewrite (reset_after_resolution _ _ _ _ _ E).
  - intros ->. rewrite Hall. simpl. by rewrite set_backend_same.
Qed.

(** C8.  Every key the schema enumerates is valid, so in
    [gnc_gsettings_reset_schema] each [gnc_gsettings_reset] of the loop takes
    the valid branch: before any key [k] of the enumeration, with the keys
    [done] already reset, the reset of [k] is the provider's reset and logs
    nothing; the whole call returns and leaves the log as the resolution left
    it. *)
Theorem enumerated_keys_are_valid s w settings w1 :
  gnc_gsettings_get_schema_ptr s w = Some (Some settings, w1) →
  (∀ k, k ∈ g_settings_list_keys settings →
        gnc_gsettings_is_valid_key (Some settings) (Some k) = true)
  ∧ (∀ (done : list string) k todo,
       g_settings_list_keys settings = (done ++ k :: todo)%list →
       let wk := set_backend (reset_all settings done (backend w1)) w1 in
       reset_each s done w1 = Some (tt, wk)
       ∧ gnc_gsettings_reset s (Some k) wk
         = Some (tt, set_backend
                       (g_settings_reset settings (Some k) (backend wk)) wk))
  ∧ ∃ w2, gnc_gsettings_reset_schema s w = Some (tt, w2)
          ∧ log w2 = log w1.
Proof.
  intros E.
  destruct (get_schema_ptr_records _ _ _ _ E) as (name & Hn & Hc).
  split; [|split].
  - intros k Hk. apply is_valid_key_iff. exists k. auto.
  - intros done k todo Hsplit wk. split.
    + apply (reset_each_cached _ _ _ _ _ Hn Hc).
      intros k' Hk'. rewrite Hsplit. apply elem_of_app. by left.
    + apply reset_cached_declared with name; [exact Hn | exact Hc |].
      rewrite Hsplit. apply elem_of_app. right. left.
  - eexists. split.
    + rewrite (reset_schema_unfold _ _ _ _ E).
      by apply (reset_each_cached _ _ _ _ _ Hn Hc).
    + reflexivity.
Qed.

(** The mask [gnc_gsettings_remove_cb_by_func] passes is
    [G_SIGNAL_MATCH_ID]: it asks for none of the three criteria. *)
Lemma remove_cb_match_mask_is_id :
  remove_cb_match_mask = G_SIGNAL_MATCH_ID
  ∧ Z.land remove_cb_match_mask G_SIGNAL_MATCH_DETAIL = 0%Z
  ∧ Z.land remove_cb_match_mask G_SIGNAL_MATCH_FUNC = 0%Z
  ∧ Z.land remove_cb_match_mask G_SIGNAL_MATCH_DATA = 0%Z
  ∧ remove_cb_match_mask
    ≠ c_bitwise_or (c_bitwise_or G_SIGNAL_MATCH_DETAIL G_SIGNAL_MATCH_FUNC)
                   G_SIGNAL_MATCH_DATA.
Proof. repeat split; try reflexivity. discriminate. Qed.

End Calls.

End PrefsTheory.

(** ** The facade on the example provider *)

Module PrefsExamples.
Import GStr Names Prefs PrefsTheory GLibModel.

Example resolve_general :
  gnc_gsettings_get_schema_ptr (Some "general") world0
  = Some (Some general_obj, world1).
Proof. reflexivity. Qed.

(** Scenario 5: the qualified and the short name give the same object. *)
Example resolve_qualified_general :
  gnc_gsettings_get_schema_ptr (Some "org.ex.app.general") world1
  = Some (Some general_obj, world1).
Proof. reflexivity. Qed.

Lemma session_returns : ∃ w2, perform_all session world1 = Some (tt, w2).
Proof. eexists. reflexivity. Qed.

(** C3 at work: [general] resolved at startup, and again after [session]. *)
Lemma resolve_same_object_witness :
  gnc_gsettings_get_schema_ptr (Some "general") world0
  = Some (Some general_obj, world1)
  ∧ ∃ w2, perform_all session world1 = Some (tt, w2)
          ∧ gnc_gsettings_get_schema_ptr (Some "general") w2
            = Some (Some general_obj, w2).
Proof.
  split; [reflexivity|].
  destruct session_returns as [w2 E].
  exists w2. split; [exact E|].
  apply (proj1 (resolve_same_object_for_life (Some "general") world0)
           general_obj world1 session w2);
    [reflexivity | exact E].
Defined.

Lemma declared_window_width : @declared glib general_obj (Some "window.width").
Proof. exists "window.width". split; [reflexivity | left]. Qed.

Lemma not_declared_window_widht :
  ¬ @declared glib general_obj (Some "window.widht").
Proof.
  intros (k & [= <-] & Hk). revert Hk.
  apply (bool_decide_eq_false_1 ("window.widht" ∈ list_keys general_obj)).
  reflexivity.
Qed.

(** C4 at work (scenarios 1 and 2): the default of [window.width], the
    fallback for the misspelt key, the fallback for an unknown schema. *)
Lemma getters_witness :
  gnc_gsettings_get_int (Some "general") (Some "window.width") world0
  = Some (800%Z, world1)
  ∧ gnc_gsettings_get_int (Some "general") (Some "window.widht") world0
    = Some (0%Z,
            add_log (error_entry "Invalid key window.widht for schema general")
                    world1).
Proof.
  destruct (@getters_check_then_forward glib) as (_ & Hint & _).
  destruct (Hint (Some "general") (Some "window.width") world0 _ _ resolve_general)
    as (_ & _ & Hgood).
  destruct (Hint (Some "general") (Some "window.widht") world0 _ _ resolve_general)
    as (_ & Hbad & _).
  split.
  - exact (Hgood general_obj eq_refl declared_window_width).
  - exact (Hbad general_obj eq_refl not_declared_window_widht).
Defined.

(** C5 at work (scenario 2, and a value out of the key's range): the
    misspelt key is refused by the facade, [5000] by the provider; neither
    changes the provider's state. *)
Lemma setters_witness :
  gnc_gsettings_set_int (Some "general") (Some "window.widht") 100 world0
  = Some (false,
          add_log (error_entry "Invalid key window.widht for schema general")
                  world1)
  ∧ gnc_gsettings_set_int (Some "general") (Some "window.width") 5000 world0
    = Some (false,
            add_log (error_entry
                       "Unable to set value for key window.width in schema general")
                    world1).
Proof.
  destruct (@setters_check_then_forward glib) as (_ & Hint & _).
  split.
  - destruct (Hint (Some "general") (Some "window.widht") 100%Z world0 _ _
                resolve_general) as (_ & Hbad & _).
    exact (Hbad general_obj eq_refl not_declared_window_widht).
  - destruct (Hint (Some "general") (Some "window.width") 5000%Z world0 _ _
                resolve_general) as (_ & _ & Hgood).
    destruct (Hgood general_obj false provider1 eq_refl declared_window_width
                eq_refl) as [_ Hrefused].
    exact (Hrefused eq_refl eq_refl).
Defined.

Lemma glib_resets_commute : @resets_commute glib.
Proof.
  intros settings [k1|] [k2|] b; simpl; try reflexivity.
  unfold reset_key, set_values; simpl. f_equal. apply delete_delete.
Qed.

(** C6 at work: the three keys of [general], in another order than the
    provider lists them. *)
Lemma reset_schema_witness :
  gnc_gsettings_reset_schema (Some "general") world0
  = reset_each (Some "general")
               ["toolbar.style"; "window.width"; "window.title"] world1
  ∧ gnc_gsettings_reset_schema (Some "general") world0
    = reset_each (Some "general")
                 ["toolbar.style"; "window.width"; "window.title"] world0.
Proof.
  destruct (reset_schema_resets_each_key (Some "general") world0 general_obj
              world1 ["toolbar.style"; "window.width"; "window.title"]
              glib_resets_commute resolve_general
              (Permutation_cons_append ["window.width"; "window.title"]
                                       "toolbar.style"))
    as (H1 & H2 & _).
  split; [exact H1 | apply H2; discriminate].
Defined.

(** C8 at work on [general]. *)
Lemma enumerated_keys_witness :
  @gnc_gsettings_is_valid_key glib (Some general_obj) (Some "window.title")
  = true
  ∧ ∃ w2, gnc_gsettings_reset_schema (Some "general") world0 = Some (tt, w2)
          ∧ log w2 = log world1.
Proof.
  destruct (enumerated_keys_are_valid (Some "general") world0 general_obj world1
              resolve_general) as (Hvalid & _ & Hlog).
  split; [|exact Hlog].
  apply Hvalid. right. left.
Defined.

Lemma resolve_short_or_qualified_witness :
  gnc_gsettings_get_schema_ptr (Some "org.ex.app.general") world0
  = gnc_gsettings_get_schema_ptr (Some "general") world0.
Proof.
  exact (resolve_short_or_qualified world0 "org.ex.app" "general"
           eq_refl eq_refl).
Defined.

(** Scenario 1: read the default, set, read, reset, read. *)
Example scenario_get_set_reset :
  (v0 ← gnc_gsettings_get_int (Some "general") (Some "window.width");
   ok ← gnc_gsettings_set_int (Some "general") (Some "window.width") 1024;
   v1 ← gnc_gsettings_get_int (Some "general") (Some "window.width");
   gnc_gsettings_reset (Some "general") (Some "window.width");;
   v2 ← gnc_gsettings_get_int (Some "general") (Some "window.width");
   mret (v0, ok, v1, v2)) world0
  = Some ((800%Z, true, 1024%Z, 800%Z), world1).
Proof. reflexivity. Qed.

(** On this provider [gnc_gsettings_remove_cb_by_func] disconnects no
    handler at all, whatever its arguments. *)
Lemma remove_cb_by_func_keeps_handlers s k f u (w w' : world glib) r :
  gnc_gsettings_remove_cb_by_func s k f u w = Some (r, w') →
  r = 0%Z ∧ handlers (backend w') = handlers (backend w).
Proof.
  unfold gnc_gsettings_remove_cb_by_func. unfold_M.
  destruct (gnc_gsettings_get_schema_ptr s w) as [[ptr w1]|] eqn:E; [|discriminate].
  assert (handlers (backend w1) = handlers (backend w)) as <-.
  { destruct (get_schema_ptr_inv _ _ _ _ E)
      as (name & _ & [(g & _ & _ & ->) | (_ & b & Hnew & ->)]); [reflexivity|].
    simpl in Hnew. unfold new in Hnew.
    destruct (assoc name (installed (backend w))); injection Hnew as <- <-;
      reflexivity. }
  destruct ptr as [settings|]; [|intros [= <- <-]; split; reflexivity].
  destruct (f =? 0)%N; [intros [= <- <-]; split; reflexivity|].
  simpl. intros [= <- <-]. split; reflexivity.
Qed.

(** On the example provider a call of [gnc_gsettings_remove_cb_by_func]
    that returns has removed no handler and says so, whatever schema, key,
    function and user data it is given. *)
Theorem remove_cb_by_func_never_disconnects s k f u (w : world glib) :
  match gnc_gsettings_remove_cb_by_func s k f u w with
  | Some (matched, w') =>
      matched = 0%Z ∧ handlers (backend w') = handlers (backend w)
  | None => True
  end.
Proof.
  destruct (gnc_gsettings_remove_cb_by_func s k f u w) as [[r w']|] eqn:E;
    [|exact I].
  eapply remove_cb_by_func_keeps_handlers, E.
Qed.

(** C1 on the code.  With two registrations on [general], for (no key, 7,
    9) and for (no key, 8, 9), [gnc_gsettings_remove_cb_by_func] for (no key,
    7, 9) reports 0 handlers removed and leaves both connected, the one that
    matches detail, function and user data included; a registration for
    ([window.width], 7, 9) stays connected in the same way. *)
Theorem remove_cb_by_func_leaves_registration :
  gnc_gsettings_register_cb (Some "general") None 7%N 9%N world0
  = Some (1%Z, world_registered)
  ∧ gnc_gsettings_register_cb (Some "general") None 8%N 9%N world_registered
    = Some (2%Z, world_registered_twice)
  ∧ handlers (backend world_registered_twice) = [handler1; handler2]
  ∧ gnc_gsettings_remove_cb_by_func (Some "general") None 7%N 9%N
      world_registered_twice
    = Some (0%Z, world_registered_twice)
  ∧ gnc_gsettings_register_cb (Some "general") (Some "window.width") 7%N 9%N
      world0
    = Some (1%Z, world_registered_width)
  ∧ handlers (backend world_registered_width) = [handler1_width]
  ∧ gnc_gsettings_remove_cb_by_func (Some "general") (Some "window.width")
      7%N 9%N world_registered_width
    = Some (0%Z, world_registered_width).
Proof. repeat split; reflexivity. Qed.

End PrefsExamples.

(** ** Migration *)

Module MigrationTheory.
Import Prefs Migration.


Lemma string_app_assoc (a b c : string) : (a ++ b) ++ c = a ++ (b ++ c).
Proof.
  induction a as [|x a IH]; [reflexivity|].
  change (String x ((a ++ b) ++ c) = String x (a ++ (b ++ c))).
  by rewrite IH.
Qed.

Lemma last_segment_from_no_slash iter l :
  has_slash iter = false → last_segment_from iter l = l.
Proof.
  revert l. induction iter as [|c rest IH]; intros l H; simpl in *; [reflexivity|].
  apply orb_false_iff in H as [-> Hrest]. by apply IH.
Qed.

(** The last segment is what follows the last slash, and the whole URL
    when there is none. *)
Lemma lastsegment_of_path dir seg :
  has_slash seg = false → lastsegment_of (dir ++ "/" ++ seg) = seg.
Proof.
  intros Hseg. unfold lastsegment_of.
  generalize (dir ++ "/" ++ seg) at 2. intros l.
  revert l. induction dir as [|c dir IH]; intros l; simpl.
  - by apply last_segment_from_no_slash.
  - apply IH.
Qed.

(** What the loop of the entity loader computes: for a URL that ends in
    a slash and a segment without slashes, that segment. *)
Theorem last_segment_follows_last_slash dir seg :
  has_slash seg = false → lastsegment_of (dir ++ "/" ++ seg) = seg.
Proof. apply lastsegment_of_path. Qed.

Lemma last_segment_witness :
  lastsegment_of "http://example.org/dtd/prefs.dtd" = "prefs.dtd".
Proof.
  exact (last_segment_follows_last_slash "http://example.org/dtd" "prefs.dtd"
           eq_refl).
Defined.

Lemma lastsegment_of_plain seg :
  has_slash seg = false → lastsegment_of seg = seg.
Proof. apply last_segment_from_no_slash. Qed.

Section Loader.
Context {xmlParserInput : Type} (tmpdir : string).
Context (load : string → option string → option xmlParserCtxt
                → option xmlParserInput).

(** When the default loader finds nothing at [URL], the call returns what
    the default loader finds at the scratch directory's file named by the last
    segment of [URL]. *)
Lemma entity_loader_fallback URL ID ctxt :
  load URL ID (with_warning None ctxt) = None →
  ∃ r, xsltprocExternalEntityLoader xmlParserInput tmpdir (Some load)
         (Some URL) ID ctxt = Some r
       ∧ ret r = load (newURL_of tmpdir URL) ID (with_warning None ctxt)
       ∧ ctxt_after r = restore_warning (warning_of ctxt) (with_warning None ctxt).
Proof.
  intros Hfirst. unfold xsltprocExternalEntityLoader. simpl. rewrite Hfirst.
  destruct (load (newURL_of tmpdir URL) ID (with_warning None ctxt)) as [input|];
    eexists; (split; [reflexivity|]); split; reflexivity.
Qed.

(** C10.  For two URLs with the same last segment, neither found by the
    default loader as given, the loader builds the same second path, the
    scratch directory, a slash and the last segment, and returns for both
    what the default loader finds there; the parser context is left the same
    too. *)
Theorem entity_loader_ignores_directory u1 u2 ID ctxt :
  lastsegment_of u1 = lastsegment_of u2 →
  load u1 ID (with_warning None ctxt) = None →
  load u2 ID (with_warning None ctxt) = None →
  newURL_of tmpdir u1 = tmpdir ++ "/" ++ lastsegment_of u1
  ∧ newURL_of tmpdir u2 = newURL_of tmpdir u1
  ∧ ∃ r1 r2,
      xsltprocExternalEntityLoader xmlParserInput tmpdir (Some load)
        (Some u1) ID ctxt = Some r1
      ∧ xsltprocExternalEntityLoader xmlParserInput tmpdir (Some load)
          (Some u2) ID ctxt = Some r2
      ∧ ret r1 = load (newURL_of tmpdir u1) ID (with_warning None ctxt)
      ∧ ret r2 = ret r1
      ∧ ctxt_after r2 = ctxt_after r1.
Proof.
  intros Hseg H1 H2.
  assert (Hurl : newURL_of tmpdir u2 = newURL_of tmpdir u1)
    by (unfold newURL_of; by rewrite Hseg).
  split; [apply string_app_assoc|]. split; [exact Hurl|].
  destruct (entity_loader_fallback u1 ID ctxt H1) as (r1 & E1 & Hr1 & Hc1).
  destruct (entity_loader_fallback u2 ID ctxt H2) as (r2 & E2 & Hr2 & Hc2).
  exists r1, r2. repeat split; try assumption.
  - by rewrite Hr1, Hr2, Hurl.
  - by rewrite Hc1, Hc2.
Qed.

End Loader.

(** C10 at work: a DTD asked for under two directories. *)
Lemma entity_loader_witness :
  ∃ r1 r2,
    xsltprocExternalEntityLoader string "/home/u/.gnc-migration-tmp"
      (Some sample_loader) (Some "http://example.org/dtd/prefs.dtd") None None
    = Some r1
    ∧ xsltprocExternalEntityLoader string "/home/u/.gnc-migration-tmp"
        (Some sample_loader) (Some "/usr/share/xml/prefs.dtd") None None
      = Some r2
    ∧ ret r1 = sample_loader "/home/u/.gnc-migration-tmp/prefs.dtd" None None
    ∧ ret r2 = ret r1
    ∧ ctxt_after r2 = ctxt_after r1.
Proof.
  exact (proj2 (proj2
    (entity_loader_ignores_directory "/home/u/.gnc-migration-tmp" sample_loader
       "http://example.org/dtd/prefs.dtd" "/usr/share/xml/prefs.dtd" None None
       eq_refl eq_refl eq_refl))).
Defined.

Section DriverFacts.
Context {host : Type} (extern : ext_call → host → option (ptr * host)).
Context (pkgdatadir : string) (HOME : option string).
Context (g_build_filename : list (option string) → string).



Lemma ext_inv c (p : process host) r p' :
  ext host extern c p = Some (r, p') →
  extern c (outside p) = Some (r, outside p')
  ∧ Migration.log p' = Migration.log p
  ∧ calls p' = (calls p ++ [c])%list.
Proof.
  unfold ext. destruct (extern c (outside p)) as [[r0 h]|]; [|discriminate].
  intros [= <- <-]. repeat split.
Qed.

Lemma ext_returns c (p : process host) :
  (∀ c h, is_Some (extern c h)) → is_Some (ext host extern c p).
Proof.
  intros Hall. unfold ext.
  destruct (Hall c (outside p)) as [[r h] ->]. eauto.
Qed.

Lemma bind_ext_inv {B} c (k : ptr → D host B) (p : process host) b p' :
  @mbind _ (D_bind host) _ _ k (ext host extern c) p = Some (b, p') →
  ∃ r p1, extern c (outside p) = Some (r, outside p1)
          ∧ Migration.log p1 = Migration.log p
          ∧ calls p1 = (calls p ++ [c])%list
          ∧ k r p1 = Some (b, p').
Proof.
  unfold mbind, D_bind.
  destruct (ext host extern c p) as [[r p1]|] eqn:E; [|discriminate].
  apply ext_inv in E as (Hx & Hl & Hc). eauto 10.
Qed.

Lemma bind_ext_returns {B} c (k : ptr → D host B) (p : process host) :
  (∀ c h, is_Some (extern c h)) →
  (∀ r p1, is_Some (k r p1)) →
  is_Some (@mbind _ (D_bind host) _ _ k (ext host extern c) p).
Proof.
  intros Hall Hk. unfold mbind, D_bind.
  destruct (ext_returns c p Hall) as [[r p1] ->]. apply Hk.
Qed.

(** C7, as the code has it.  The driver checks none of its inputs and has
    no branch: a run that returns has logged nothing and has made every call
    of [stages] in order, a file missing or not, up to the load of the
    generated program, the call of [run-migration] and the cleanup.  The
    pointers it passes on are the ones it was given: with [rs] the answers
    of the host to these calls, the stylesheet handed to the transformation,
    to the save and to the free is the answer of [xsltParseStylesheetFile]
    (the sixth call), the document the answer of [xmlParseFile], the result
    the answer of [xsltApplyStylesheet] and the file the answer of [fopen],
    [NULL] where the host answered [NULL].  And the run returns whenever each
    of these calls returns. *)
Theorem migrate_runs_every_stage (p : process host) :
  (∀ p',
     gnc_gsettings_migrate_from_gconf host extern pkgdatadir HOME
       g_build_filename p = Some (tt, p') →
     Migration.log p' = Migration.log p
     ∧ ∃ style doc result file rs,
         calls p'
         = (calls p
            ++ stages pkgdatadir HOME g_build_filename style doc result file)%list
         ∧ answers host extern
             (stages pkgdatadir HOME g_build_filename style doc result file)
             (outside p)
           = Some (rs, outside p')
         ∧ rs !! 5%nat = Some style
         ∧ rs !! 6%nat = Some doc
         ∧ rs !! 7%nat = Some result
         ∧ rs !! 8%nat = Some file)
  ∧ ((∀ c h, is_Some (extern c h)) →
     is_Some (gnc_gsettings_migrate_from_gconf host extern pkgdatadir HOME
                g_build_filename p)).
Proof.
  split.
  - intros p' H. unfold gnc_gsettings_migrate_from_gconf in H.
    repeat match type of H with
           | mbind _ (ext _ _ _) _ = Some _ =>
               let Hx := fresh "Hx" in
               let Hl := fresh "Hl" in
               let Hc := fresh "Hc" in
               apply bind_ext_inv in H as (? & ? & Hx & Hl & Hc & H)
           end.
    injection H as <-.
    split; [congruence|].
    eexists _, _, _, _, _. unfold stages.
    split; [|split].
    + repeat match goal with
             | Hc : calls ?q = _ |- context [calls ?q] => rewrite Hc; clear Hc
             end.
      rewrite <- !app_assoc. reflexivity.
    + repeat (cbn [answers];
              match goal with
              | Hx : extern ?c ?h = _ |- context [extern ?c ?h] =>
                  rewrite Hx; clear Hx
              end).
      reflexivity.
    + repeat split.
  - intros Hall. unfold gnc_gsettings_migrate_from_gconf.
    repeat (apply bind_ext_returns; [exact Hall | intros ? ?]).
    unfold mret, D_ret. eauto.
Qed.

End DriverFacts.

(** C7, as the claim states it, fails: with the manifest missing the run
    goes on to transform (with [NULL] for the document), to load the
    generated program and to call [run-migration], and the log stays
    empty. *)
Lemma migrate_without_manifest :
  ("/usr/share/gnucash/migratable-prefs.xml"
     ∉ files (outside process_without_manifest))
  ∧ ∃ p', sample_migrate process_without_manifest = Some (tt, p')
          ∧ Migration.log p' = []
          ∧ calls p'
            = stages "/usr/share/gnucash" (Some "/home/u") sample_build_filename
                (Some 1%positive) None None (Some 4%positive)
          ∧ interpreted (outside p')
            = [prepare_expr;
               "/home/u/.gnc-migration-tmp/migrate-prefs-user.scm";
               run_expr; cleanup_expr].
Proof.
  split.
  - apply (bool_decide_eq_false_1 _). reflexivity.
  - eexists. split; [vm_compute; reflexivity|]. repeat split.
Qed.

(** C7 at work on the same run: the stylesheet the parser answered goes to
    the transformation, to the save and to the free, and [NULL] stands for
    the document that could not be parsed and for the result. *)
Lemma migrate_witness :
  ∃ p', sample_migrate process_without_manifest = Some (tt, p')
        ∧ Migration.log p' = []
        ∧ calls p'
          = stages "/usr/share/gnucash" (Some "/home/u") sample_build_filename
              (Some 1%positive) None None (Some 4%positive).
Proof.
  destruct (migrate_runs_every_stage sample_extern "/usr/share/gnucash"
              (Some "/home/u") sample_build_filename process_without_manifest)
    as [Hrun Hret].
  destruct Hret as [[[] p'] E].
  - intros c h. destruct c; simpl; repeat case_match; eauto.
  - exists p'. split; [exact E|].
    destruct (Hrun p' E)
      as (Hlog & style & doc & result & file & rs & Hc & Ha & H5 & H6 & H7 & H8).
    split; [exact Hlog|].
    rewrite Hc. simpl app.
    destruct style as [style|], doc as [doc|], result as [result|],
      file as [file|];
      vm_compute in Ha; injection Ha as <- _;
      simpl in H5, H6, H7, H8; congruence.
Defined.

End MigrationTheory.

(** * Further properties *)

(** ** Schema names, continued *)

Module NamesExtra.
Import GStr Names NamesTheory.

Lemma cons_append (c : Ascii.ascii) (a b : string) :
  String c a ++ b = String c (a ++ b).
Proof. reflexivity. Qed.

Lemma prefix_split (p n : string) :
  String.prefix p n = true → ∃ rest, n = p ++ rest.
Proof.
  revert n. induction p as [|c p IH]; intros n H.
  - exists n. reflexivity.
  - destruct n as [|d n]; simpl in H; [discriminate|].
    destruct (Ascii.ascii_dec c d) as [->|]; [|discriminate].
    destruct (IH n H) as [rest ->]. exists rest. by rewrite cons_append.
Qed.

Lemma append_inj_l (p a b : string) : p ++ a = p ++ b → a = b.
Proof.
  induction p as [|c p IH]; [done|].
  rewrite !cons_append. intros [= E]. by apply IH.
Qed.

(** Every normalized name lies under the prefix: it is the prefix followed
    by something, for every name, [NULL] and the empty name included. *)
Theorem normalized_under_prefix (prefix : string) (name : option string) :
  ∃ rest, normalized (Some prefix) name = Some (prefix ++ rest).
Proof.
  rewrite normalized_set_prefix. unfold normalized_text.
  destruct name as [n|].
  - destruct (String.prefix prefix n) eqn:E.
    + destruct (prefix_split _ _ E) as [rest ->]. eauto.
    + eauto.
  - exists EmptyString. by rewrite append_empty.
Qed.

(** Two names normalize to the same schema name exactly when they are
    equal or one is the other, qualified: so two short names never share a
    catalog entry. *)
Theorem normalized_same_iff (prefix n1 n2 : string) :
  normalized (Some prefix) (Some n1) = normalized (Some prefix) (Some n2)
  ↔ n1 = n2
    ∨ (String.prefix prefix n1 = false ∧ n2 = prefix ++ "." ++ n1)
    ∨ (String.prefix prefix n2 = false ∧ n1 = prefix ++ "." ++ n2).
Proof.
  rewrite !normalized_set_prefix. unfold normalized_text.
  destruct (String.prefix prefix n1) eqn:E1, (String.prefix prefix n2) eqn:E2.
  - split; [intros [= ->]; by left|].
    intros [->|[[? _]|[? _]]]; [done | discriminate..].
  - split; [intros [= ->]; right; right; done|].
    intros [->|[[? _]|[_ ->]]]; [congruence | discriminate | done].
  - split; [intros [= <-]; right; left; done|].
    intros [->|[[_ ->]|[? _]]]; [congruence | done | discriminate].
  - split.
    + intros [= E]. left. apply append_inj_l in E.
      by apply (append_inj_l ".") in E.
    + intros [->|[[_ ->]|[_ ->]]]; [done | |].
      * by rewrite prefix_append in E2.
      * by rewrite prefix_append in E1.
Qed.

(** Before a prefix is set ([gnc_gsettings_get_prefix ()] is [NULL]):
    for the name [NULL] the result is [NULL] and nothing is allocated; for
    every other name, the one that is being asked for is dropped and the
    result is a new empty string. *)
Theorem normalize_without_prefix (name : string) (h : heap) :
  gnc_gsettings_normalize_schema_name None None h = (None, h)
  ∧ ∃ a, gnc_gsettings_normalize_schema_name None (Some name) h
         = (Some a, <[a := EmptyString]> h)
         ∧ h !! a = None.
Proof.
  split; [reflexivity|].
  exists (fresh (dom h)). split; [reflexivity|].
  apply not_elem_of_dom, is_fresh.
Qed.

End NamesExtra.

(** ** The facade, continued *)

Module PrefsExtra.
Import GStr Names Prefs PrefsMore PrefsTheory.

Section Extra.
Context {P : Provider}.

Implicit Types (w : world P) (s : option string) (settings : GSettings).

Lemma resolved_after s w settings w1 :
  gnc_gsettings_get_schema_ptr s w = Some (Some settings, w1) →
  resolved s w1 settings.
Proof. apply get_schema_ptr_records. Qed.

Lemma resolved_get s w settings :
  resolved s w settings →
  gnc_gsettings_get_schema_ptr s w = Some (Some settings, w).
Proof. intros (name & Hn & Hc). by apply get_schema_ptr_cached with name. Qed.

Lemma resolved_set_backend s w settings b :
  resolved s w settings → resolved s (set_backend b w) settings.
Proof. intros H. exact H. Qed.

(** On a world that has the schema, with a key it declares, a getter is
    the provider's getter. *)
Lemma getter_shape_resolved {T} func (zero : T) pget s key w settings :
  resolved s w settings → declared settings key →
  getter_shape func zero pget s key w
  = Some (let '(v, b) := pget settings key (backend w) in (v, set_backend b w)).
Proof.
  intros Hr Hd. unfold getter_shape. unfold_M.
  rewrite (resolved_get _ _ _ Hr).
  apply is_valid_key_iff in Hd. rewrite Hd.
  by destruct (pget settings key (backend w)).
Qed.

(** A setter that returned [TRUE] went through both checks and the
    provider's setter. *)
Lemma setter_shape_true {V} func pset s key (v : V) w w1 :
  setter_shape func pset s key v w = Some (true, w1) →
  ∃ settings wr b',
    gnc_gsettings_get_schema_ptr s w = Some (Some settings, wr)
    ∧ declared settings key
    ∧ pset settings key v (backend wr) = (true, b')
    ∧ w1 = set_backend b' wr.
Proof.
  unfold setter_shape. unfold_M.
  destruct (gnc_gsettings_get_schema_ptr s w) as [[[settings|] wr]|] eqn:E;
    [|discriminate..].
  destruct (gnc_gsettings_is_valid_key (Some settings) key) eqn:Hv;
    [|discriminate].
  destruct (pset settings key v (backend wr)) as [[|] b'] eqn:Hset;
    simpl; [|discriminate].
  intros [= <-]. exists settings, wr, b'.
  repeat split; try done. by apply is_valid_key_iff.
Qed.

Lemma round_trip_shapes {V} fset fget (zero : V) pset pget :
  reads_back pset pget →
  round_trip (setter_shape fset pset) (getter_shape fget zero pget).
Proof.
  intros Hlaw s key v w w1 Hset.
  apply setter_shape_true in Hset as (settings & wr & b' & E & Hd & Hp & ->).
  rewrite (getter_shape_resolved _ _ _ _ _ _ settings);
    [|apply resolved_set_backend, (resolved_after _ _ _ _ E) | exact Hd].
  specialize (Hlaw _ _ _ _ _ Hp). simpl.
  destruct (pget settings key b') as [v' b'']. simpl in Hlaw. subst v'. eauto.
Qed.

(** A value written is the value read (the spec's round trip), for each
    of the six types: when the provider reads back what it accepted, a get
    after a set that returned [TRUE], with the same schema name and key,
    returns the value set. *)
Theorem set_then_get_round_trips :
  (reads_back g_settings_set_boolean g_settings_get_boolean →
   round_trip gnc_gsettings_set_bool gnc_gsettings_get_bool)
  ∧ (reads_back g_settings_set_int g_settings_get_int →
     round_trip gnc_gsettings_set_int gnc_gsettings_get_int)
  ∧ (reads_back g_settings_set_double g_settings_get_double →
     round_trip gnc_gsettings_set_float gnc_gsettings_get_float)
  ∧ (reads_back g_settings_set_string g_settings_get_string →
     round_trip gnc_gsettings_set_string gnc_gsettings_get_string)
  ∧ (reads_back g_settings_set_enum g_settings_get_enum →
     round_trip gnc_gsettings_set_enum gnc_gsettings_get_enum)
  ∧ (reads_back g_settings_set_value g_settings_get_value →
     round_trip gnc_gsettings_set_value gnc_gsettings_get_value).
Proof.
  repeat split; intros Hlaw.
  - exact (round_trip_shapes "gnc_gsettings_set_bool" "gnc_gsettings_get_bool"
             false _ _ Hlaw).
  - exact (round_trip_shapes "gnc_gsettings_set_int" "gnc_gsettings_get_int"
             0%Z _ _ Hlaw).
  - exact (round_trip_shapes "gnc_gsettings_set_float" "gnc_gsettings_get_float"
             0%float _ _ Hlaw).
  - exact (round_trip_shapes "gnc_gsettings_set_string"
             "gnc_gsettings_get_string" None _ _ Hlaw).
  - exact (round_trip_shapes "gnc_gsettings_set_enum" "gnc_gsettings_get_enum"
             0%Z _ _ Hlaw).
  - exact (round_trip_shapes "gnc_gsettings_set_value" "gnc_gsettings_get_value"
             None _ _ Hlaw).
Qed.

Lemma reset_then_get_shape {T} func (zero : T) pget dflt :
  reads_default pget dflt →
  reset_then_get (getter_shape func zero pget) dflt.
Proof.
  intros Hlaw s key w settings w0 E Hd.
  pose proof (resolved_after _ _ _ _ E) as Hr.
  destruct Hd as (k & -> & Hk).
  destruct Hr as (name & Hn & Hc).
  specialize (Hlaw settings (Some k) (backend w0)).
  destruct (pget settings (Some k)
              (g_settings_reset settings (Some k) (backend w0)))
    as [v b] eqn:Hg.
  simpl in Hlaw. subst v.
  set (w1 := set_backend (g_settings_reset settings (Some k) (backend w0)) w0).
  exists w1, (set_backend b w1). split.
  - rewrite (reset_after_resolution _ _ _ _ _ E).
    by apply reset_cached_declared with name.
  - rewrite (getter_shape_resolved _ _ _ _ _ _ settings);
      [|by exists name | by exists k].
    subst w1. simpl. by rewrite Hg.
Qed.

(** A reset key reads as its default, for each of the six types: when
    the provider answers [dflt] for a key just reset, then for a schema that
    resolves and a key it declares, [gnc_gsettings_reset] returns and a get
    after it returns [dflt]. *)
Theorem reset_then_get_reads_default
    (dflt_bool : GSettings → option string → bool)
    (dflt_int dflt_enum : GSettings → option string → Z)
    (dflt_float : GSettings → option string → float)
    (dflt_string : GSettings → option string → option string)
    (dflt_value : GSettings → option string → option GVariant) :
  (reads_default g_settings_get_boolean dflt_bool →
   reset_then_get gnc_gsettings_get_bool dflt_bool)
  ∧ (reads_default g_settings_get_int dflt_int →
     reset_then_get gnc_gsettings_get_int dflt_int)
  ∧ (reads_default g_settings_get_double dflt_float →
     reset_then_get gnc_gsettings_get_float dflt_float)
  ∧ (reads_default g_settings_get_string dflt_string →
     reset_then_get gnc_gsettings_get_string dflt_string)
  ∧ (reads_default g_settings_get_enum dflt_enum →
     reset_then_get gnc_gsettings_get_enum dflt_enum)
  ∧ (reads_default g_settings_get_value dflt_value →
     reset_then_get gnc_gsettings_get_value dflt_value).
Proof.
  repeat split; intros Hlaw.
  - exact (reset_then_get_shape "gnc_gsettings_get_bool" false _ _ Hlaw).
  - exact (reset_then_get_shape "gnc_gsettings_get_int" 0%Z _ _ Hlaw).
  - exact (reset_then_get_shape "gnc_gsettings_get_float" 0%float _ _ Hlaw).
  - exact (reset_then_get_shape "gnc_gsettings_get_string" None _ _ Hlaw).
  - exact (reset_then_get_shape "gnc_gsettings_get_enum" 0%Z _ _ Hlaw).
  - exact (reset_then_get_shape "gnc_gsettings_get_value" None _ _ Hlaw).
Qed.

(** *** The log only grows *)

Lemma grows_ret {A} (a : A) : log_grows (mret a : M P A).
Proof. intros w a' w1 [= <- <-]. reflexivity. Qed.

Lemma grows_bind {A B} (m : M P A) (k : A → M P B) :
  log_grows m → (∀ a, log_grows (k a)) → log_grows (m ≫= k).
Proof.
  intros Hm Hk w b w2. unfold mbind, M_bind.
  destruct (m w) as [[a w1]|] eqn:E; [|discriminate].
  intros E2. etrans; [exact (Hm _ _ _ E) | exact (Hk _ _ _ _ E2)].
Qed.

Lemma grows_crash {A} : log_grows (crash : M P A).
Proof. intros w a w1 [=]. Qed.

Lemma grows_call {A} (op : provider_state → A * provider_state) :
  log_grows (call op).
Proof.
  intros w a w1. unfold call. destruct (op (backend w)).
  intros [= <- <-]. reflexivity.
Qed.

Lemma grows_call_ (op : provider_state → provider_state) : log_grows (call_ op).
Proof. intros w a w1 [= <- <-]. reflexivity. Qed.

Lemma grows_add_log e : log_grows (modify (add_log e) : M P unit).
Proof. intros w a w1 [= <- <-]. simpl. by apply prefix_app_r. Qed.

Lemma grows_PERR msg : log_grows (PERR msg : M P unit).
Proof. apply grows_add_log. Qed.

Lemma grows_g_return_if_fail_warning func expr :
  log_grows (g_return_if_fail_warning func expr : M P unit).
Proof. apply grows_add_log. Qed.

Lemma grows_when c (m : M P unit) : log_grows m → log_grows (when c m).
Proof. intros Hm. destruct c; [exact Hm | apply grows_ret]. Qed.

Lemma grows_get_schema_ptr s : log_grows (gnc_gsettings_get_schema_ptr s).
Proof.
  intros w r w1 E.
  destruct (get_schema_ptr_inv _ _ _ _ E)
    as (name & Hn & [(gset & Hc & -> & ->) | (Hc & b & Hnew & ->)]);
    [reflexivity|].
  destruct r; simpl; [reflexivity | by apply prefix_app_r].
Qed.

End Extra.

Create HintDb grows.

#[export] Hint Resolve grows_ret grows_crash grows_call grows_call_
  grows_PERR grows_g_return_if_fail_warning grows_get_schema_ptr : grows.

Ltac grows_step :=
  lazymatch goal with
  | |- log_grows (mbind _ _) => apply grows_bind; [|intros ?]
  | |- log_grows (when _ _) => apply grows_when
  | |- log_grows (match ?x with _ => _ end) => destruct x
  | |- _ => solve [eauto with grows]
  end.

Ltac grows_body := cbv zeta; repeat grows_step.

Section Invariants.
Context {P : Provider}.

Lemma grows_reset s k : log_grows (gnc_gsettings_reset (P := P) s k).
Proof. unfold gnc_gsettings_reset. grows_body. Qed.

Lemma grows_reset_each s keys : log_grows (reset_each (P := P) s keys).
Proof.
  induction keys as [|k keys IH]; simpl; [apply grows_ret|].
  apply grows_bind; [apply grows_reset | intros _; exact IH].
Qed.

Lemma grows_perform (c : backend_call P) : log_grows (perform c).
Proof.
  destruct c; unfold perform;
    unfold gnc_gsettings_register_any_cb, gnc_gsettings_remove_any_cb_by_func;
    unfold gnc_gsettings_register_cb, gnc_gsettings_remove_cb_by_func,
      gnc_gsettings_remove_cb_by_id, gnc_gsettings_bind,
      gnc_gsettings_get_bool, gnc_gsettings_get_int, gnc_gsettings_get_float,
      gnc_gsettings_get_string, gnc_gsettings_get_enum, gnc_gsettings_get_value,
      gnc_gsettings_set_bool, gnc_gsettings_set_int, gnc_gsettings_set_float,
      gnc_gsettings_set_string, gnc_gsettings_set_enum, gnc_gsettings_set_value,
      gnc_gsettings_reset_schema;
    try apply grows_reset; grows_body; apply grows_reset_each.
Qed.

Lemma grows_perform_all (cs : list (backend_call P)) :
  log_grows (perform_all cs).
Proof.
  induction cs as [|c cs IH]; simpl; [apply grows_ret|].
  apply grows_bind; [apply grows_perform | intros _; exact IH].
Qed.

(** What no call through the backend's entry points ever does: over any
    run of such calls the prefix is not changed, no schema object leaves the
    catalog or is replaced in it, and no log entry is dropped or altered. *)
Theorem backend_calls_keep_statics (cs : list (backend_call P))
    (w w' : world P) :
  perform_all cs w = Some (tt, w') →
  gsettings_prefix w' = gsettings_prefix w
  ∧ (∀ name gset, catalog w !! name = Some gset →
                  catalog w' !! name = Some gset)
  ∧ log w `prefix_of` log w'.
Proof.
  intros E. destruct (steady_perform_all cs _ _ _ E) as [Hp Hsub].
  split; [exact Hp|]. split.
  - intros name gset Hc. by apply (lookup_weaken (catalog w)).
  - exact (grows_perform_all cs _ _ _ E).
Qed.

(** *** Outcomes of a resolution *)

(** What a resolution leaves in the log: nothing when it returns a schema
    object; when it returns none, one more warning, [Ignoring attempt to
    access unknown gsettings schema] with the full schema name, and that at
    every such call, the catalog keeping no trace of the failure. *)
Theorem resolution_warns_on_each_failure s (w : world P) r w1 :
  gnc_gsettings_get_schema_ptr s w = Some (r, w1) →
  gsettings_prefix w1 = gsettings_prefix w
  ∧ (is_Some r → log w1 = log w)
  ∧ (r = None →
     ∃ name,
       normalized (gsettings_prefix w) s = Some name
       ∧ catalog w1 = catalog w
       ∧ log w1
         = (log w
            ++ [warning_entry
                  ("Ignoring attempt to access unknown gsettings schema "
                   ++ name)])%list).
Proof.
  intros E.
  destruct (get_schema_ptr_inv _ _ _ _ E)
    as (name & Hn & [(gset & Hc & -> & ->) | (Hc & b & Hnew & ->)]).
  - split; [done|]. split; [done | discriminate].
  - destruct r as [gset|]; simpl.
    + split; [done|]. split; [done | discriminate].
    + split; [done|]. split; [by intros [? [=]]|].
      intros _. exists name. done.
Qed.

(** Before a prefix is set, a [NULL] schema name makes the resolution not
    return, and every other schema name resolves alike, as the schema with
    the empty name. *)
Theorem resolution_without_prefix (w : world P) :
  gsettings_prefix w = None →
  gnc_gsettings_get_schema_ptr None w = None
  ∧ ∀ n, gnc_gsettings_get_schema_ptr (Some n) w
         = gnc_gsettings_get_schema_ptr (Some EmptyString) w
         ∧ normalized (gsettings_prefix w) (Some n) = Some EmptyString.
Proof.
  intros Hp. split.
  - apply get_schema_ptr_null_name. by rewrite Hp.
  - intros n. split; [|by rewrite Hp].
    apply get_schema_ptr_by_text. by rewrite Hp.
Qed.

(** *** The registry and the remaining entry points *)

Lemma signal_for_changed_signal settings key signal :
  signal_for settings key signal →
  changed_signal (Some settings) key = signal.
Proof.
  intros [| |k Hne Hd|k Hne Hd]; simpl; try reflexivity.
  - apply String.eqb_neq in Hne. rewrite Hne.
    apply is_valid_key_iff in Hd. unfold gnc_gsettings_is_valid_key in Hd.
    by rewrite Hd.
  - apply String.eqb_neq in Hne. rewrite Hne.
    apply is_valid_key_false in Hd. unfold gnc_gsettings_is_valid_key in Hd.
    by rewrite Hd.
Qed.

(** Registration: with no schema object, or with a [NULL] function, the
    call returns 0, logs the critical of the failed check and connects
    nothing.  Otherwise it returns what the provider's [g_signal_connect]
    returns for the signal ["changed"] (no key, or the empty key),
    ["changed::<key>"] (a key the schema declares) or, for any other key, for
    the [NULL] signal: an undeclared key is not reported by the facade. *)
Theorem register_cb_checks_then_connects
    (s key : option string) (f u : N) (w : world P) r w1 :
  gnc_gsettings_get_schema_ptr s w = Some (r, w1) →
  (r = None →
   gnc_gsettings_register_cb s key f u w
   = Some (0%Z, add_log (critical_entry "gnc_gsettings_register_cb"
                                        "G_IS_SETTINGS (schema_ptr)") w1))
  ∧ (∀ settings, r = Some settings → f = 0%N →
     gnc_gsettings_register_cb s key f u w
     = Some (0%Z,
             add_log (critical_entry "gnc_gsettings_register_cb" "func") w1))
  ∧ (∀ settings signal, r = Some settings → f ≠ 0%N →
     signal_for settings key signal →
     gnc_gsettings_register_cb s key f u w
     = Some (let '(id, b) := g_signal_connect settings signal f u (backend w1)
             in (id, set_backend b w1))).
Proof.
  intros E. unfold gnc_gsettings_register_cb. unfold_M. rewrite E.
  split; [by intros ->|]. split.
  - intros settings -> ->. reflexivity.
  - intros settings signal -> Hf Hsig.
    apply N.eqb_neq in Hf. rewrite Hf.
    rewrite (signal_for_changed_signal _ _ _ Hsig).
    by destruct (g_signal_connect settings signal f u (backend w1)).
Qed.

(** Binding, reset and removal by id: with no schema object each logs the
    critical of its failed check and does nothing else; with one, [bind] and
    [reset] log [Invalid key ...] for a key the schema does not declare and
    otherwise are the provider's [g_settings_bind] (with flags 0) and
    [g_settings_reset], and removal by id is the provider's
    [g_signal_handler_disconnect] on that object, for the id as the [guint]
    parameter holds it: the id passed, cut to 32 bits. *)
Theorem void_calls_check_then_forward
    (s key : option string) (object : N) (property : option string)
    (handlerid : Z) (w : world P) r w1 :
  gnc_gsettings_get_schema_ptr s w = Some (r, w1) →
  (r = None →
   gnc_gsettings_bind s key object property w
   = Some (tt, add_log (critical_entry "gnc_gsettings_bind"
                                       "G_IS_SETTINGS (schema_ptr)") w1)
   ∧ gnc_gsettings_reset s key w
     = Some (tt, add_log (critical_entry "gnc_gsettings_reset"
                                         "G_IS_SETTINGS (schema_ptr)") w1)
   ∧ gnc_gsettings_remove_cb_by_id s handlerid w
     = Some (tt, add_log (critical_entry "gnc_gsettings_remove_cb_by_id"
                                         "G_IS_SETTINGS (schema_ptr)") w1))
  ∧ (∀ settings, r = Some settings → ¬ declared settings key →
     gnc_gsettings_bind s key object property w
     = Some (tt, add_log (error_entry (invalid_key_msg key s)) w1)
     ∧ gnc_gsettings_reset s key w
       = Some (tt, add_log (error_entry (invalid_key_msg key s)) w1))
  ∧ (∀ settings, r = Some settings → declared settings key →
     gnc_gsettings_bind s key object property w
     = Some (tt, set_backend
                   (g_settings_bind settings key object property 0 (backend w1))
                   w1)
     ∧ gnc_gsettings_reset s key w
       = Some (tt, set_backend (g_settings_reset settings key (backend w1)) w1))
  ∧ (∀ settings, r = Some settings →
     gnc_gsettings_remove_cb_by_id s handlerid w
     = Some (tt, set_backend
                   (g_signal_handler_disconnect settings (handlerid mod 2 ^ 32)
                      (backend w1))
                   w1)).
Proof.
  intros E.
  unfold gnc_gsettings_bind, gnc_gsettings_reset, gnc_gsettings_remove_cb_by_id.
  unfold_M. rewrite E.
  split; [by intros ->|]. split; [|split].
  - intros settings -> Hd. apply is_valid_key_false in Hd. by rewrite Hd.
  - intros settings -> Hd. apply is_valid_key_iff in Hd. by rewrite Hd.
  - by intros settings ->.
Qed.

End Invariants.
End PrefsExtra.

(** ** The facade on the example provider, continued *)

Module PrefsExtraExamples.
Import GStr Names Prefs PrefsMore PrefsTheory PrefsExtra.
Import GLibModel GLibModelMore PrefsExamples.

Lemma glib_reads_back_int :
  @reads_back glib Z (λ s k v, write s k (VInt32 v)) read_int.
Proof.
  intros s key v b b'. unfold write, read_int, read, spec_of.
  destruct key as [k|]; simpl; [|discriminate].
  destruct (assoc k (schema_keys s)) as [spec|]; simpl; [|discriminate].
  match goal with
  | |- (if ?c then _ else _) = _ → _ => destruct c; [|discriminate]
  end.
  intros [= <-]. simpl. by rewrite lookup_insert_eq.
Qed.

Lemma glib_reads_default_int : @reads_default glib Z read_int default_int.
Proof.
  intros s key b. unfold read_int, read, default_int, spec_of. simpl.
  destruct key as [k|]; simpl; [|reflexivity].
  destruct (assoc k (schema_keys s)) as [[d r c]|]; simpl; [|reflexivity].
  rewrite lookup_delete_eq. simpl. by destruct d.
Qed.

Lemma set_width_returns :
  ∃ w1, gnc_gsettings_set_int (Some "general") (Some "window.width") 1024 world0
        = Some (true, w1).
Proof. eexists. reflexivity. Qed.

(** The round trip at work (scenario 1): 1024 written to [window.width]
    is read back. *)
Lemma set_then_get_witness :
  ∃ w1 w2,
    gnc_gsettings_set_int (Some "general") (Some "window.width") 1024 world0
    = Some (true, w1)
    ∧ gnc_gsettings_get_int (Some "general") (Some "window.width") w1
      = Some (1024%Z, w2).
Proof.
  destruct set_width_returns as [w1 Hset].
  destruct (proj1 (proj2 (@set_then_get_round_trips glib)) glib_reads_back_int
              (Some "general") (Some "window.width") 1024%Z world0 w1 Hset)
    as [w2 Hget].
  exists w1, w2. split; [exact Hset | exact Hget].
Defined.

(** Reset at work (scenario 1): [window.width] reads 800 after a
    reset. *)
Lemma reset_then_get_witness :
  ∃ w1 w2,
    gnc_gsettings_reset (Some "general") (Some "window.width") world0
    = Some (tt, w1)
    ∧ gnc_gsettings_get_int (Some "general") (Some "window.width") w1
      = Some (800%Z, w2).
Proof.
  exact (proj1 (proj2 (@reset_then_get_reads_default glib
                         (λ _ _, false) default_int (λ _ _, 0%Z)
                         (λ _ _, 0%float) (λ _ _, None) (λ _ _, None)))
           glib_reads_default_int
           (Some "general") (Some "window.width") world0 general_obj world1
           resolve_general declared_window_width).
Defined.

(** The invariants at work on [session]. *)
Lemma backend_calls_witness :
  ∃ w2, perform_all session world1 = Some (tt, w2)
        ∧ gsettings_prefix w2 = Some "org.ex.app"
        ∧ catalog w2 !! "org.ex.app.general" = Some general_obj
        ∧ log world1 `prefix_of` log w2.
Proof.
  destruct session_returns as [w2 E].
  destruct (backend_calls_keep_statics session world1 w2 E) as (Hp & Hc & Hl).
  exists w2. split; [exact E|]. split; [exact Hp|]. split; [|exact Hl].
  apply Hc. reflexivity.
Defined.

(** Registration at work: the key [window.width] of [general]. *)
Lemma register_cb_witness :
  gnc_gsettings_register_cb (Some "general") (Some "window.width") 7%N 9%N world0
  = Some (1%Z, world_registered_width).
Proof.
  destruct (register_cb_checks_then_connects (Some "general")
              (Some "window.width") 7%N 9%N world0 _ _ resolve_general)
    as (_ & _ & Hok).
  rewrite (Hok general_obj (Some "changed::window.width") eq_refl);
    [reflexivity | discriminate |].
  apply (signal_declared_key (P := glib) general_obj "window.width");
    [discriminate | exact declared_window_width].
Defined.

(** The remaining entry points at work: a reset of the misspelt key. *)
Lemma void_calls_witness :
  gnc_gsettings_reset (Some "general") (Some "window.widht") world0
  = Some (tt, add_log (error_entry "Invalid key window.widht for schema general")
                      world1).
Proof.
  destruct (void_calls_check_then_forward (Some "general") (Some "window.widht")
              0%N None 0%Z world0 _ _ resolve_general) as (_ & Hbad & _).
  exact (proj2 (Hbad general_obj eq_refl not_declared_window_widht)).
Defined.

(** A schema that is not installed, asked for twice. *)
Lemma resolution_warns_witness :
  ∃ w1 w2,
    gnc_gsettings_get_schema_ptr (Some "nosuch") world0 = Some (None, w1)
    ∧ gnc_gsettings_get_schema_ptr (Some "nosuch") w1 = Some (None, w2)
    ∧ log w2
      = [warning_entry
           "Ignoring attempt to access unknown gsettings schema org.ex.app.nosuch";
         warning_entry
           "Ignoring attempt to access unknown gsettings schema org.ex.app.nosuch"].
Proof.
  set (w1 := after_unknown (P := glib) "org.ex.app.nosuch" provider0 world0).
  set (w2 := after_unknown (P := glib) "org.ex.app.nosuch" provider0 w1).
  assert (E1 : gnc_gsettings_get_schema_ptr (Some "nosuch") world0
               = Some (None, w1)) by reflexivity.
  assert (E2 : gnc_gsettings_get_schema_ptr (Some "nosuch") w1
               = Some (None, w2)) by reflexivity.
  exists w1, w2. split; [exact E1|]. split; [exact E2|].
  destruct (resolution_warns_on_each_failure _ _ _ _ E1) as (Hp1 & _ & Hw1).
  destruct (resolution_warns_on_each_failure _ _ _ _ E2) as (_ & _ & Hw2).
  destruct (Hw1 eq_refl) as (n1 & Hn1 & _ & Hl1).
  destruct (Hw2 eq_refl) as (n2 & Hn2 & _ & Hl2).
  rewrite Hp1 in Hn2.
  injection Hn1 as <-. injection Hn2 as <-.
  rewrite Hl2, Hl1. reflexivity.
Defined.

Lemma resolution_without_prefix_witness :
  gnc_gsettings_get_schema_ptr None world_unset = None
  ∧ gnc_gsettings_get_schema_ptr (Some "general") world_unset
    = gnc_gsettings_get_schema_ptr (Some EmptyString) world_unset.
Proof.
  destruct (resolution_without_prefix world_unset eq_refl) as [Hnull Hall].
  split; [exact Hnull | exact (proj1 (Hall "general"))].
Defined.

(** *** Registrations on the example provider *)

Lemma glib_resolution_keeps_handlers s (w : world glib) r w1 :
  gnc_gsettings_get_schema_ptr s w = Some (r, w1) →
  handlers (backend w1) = handlers (backend w)
  ∧ next_handler (backend w1) = next_handler (backend w).
Proof.
  intros E.
  destruct (get_schema_ptr_inv _ _ _ _ E)
    as (name & _ & [(g & _ & _ & ->) | (_ & b & Hnew & ->)]); [done|].
  simpl in Hnew. unfold new in Hnew.
  destruct (assoc name (installed (backend w))); injection Hnew as <- <-; done.
Qed.

Lemma substring_all (k : string) : String.substring 0 (String.length k) k = k.
Proof. induction k as [|c k IH]; simpl; [done | by rewrite IH]. Qed.

Lemma parse_changed_key (k : string) :
  k ≠ EmptyString →
  parse_signal (Some ("changed::" ++ k))
  = Some (changed_signal_id, Some k).
Proof.
  intros Hk. unfold parse_signal.
  change ("changed::" ++ k)
    with (String "c" (String "h" (String "a" (String "n" (String "g"
           (String "e" (String "d" (String ":" (String ":" k))))))))).
  destruct k as [|c k]; [done|].
  simpl. by rewrite substring_all.
Qed.

Lemma parse_signal_for settings key signal :
  @signal_for glib settings key (Some signal) →
  ∃ det, parse_signal (Some signal) = Some (changed_signal_id, det).
Proof.
  inversion 1; subst; [by exists None | by exists None |].
  exists (Some k). by apply parse_changed_key.
Qed.

(** A registration for a non-empty key the schema does not declare gets no
    report from this file, unlike a binding, a reset, a get or a set (which
    log [Invalid key ...]): the [NULL] signal goes to [g_signal_connect] as it
    is.  On the example provider, which answers 0 to a [NULL] signal and
    connects nothing, the call returns 0 and leaves the handlers and this
    file's log as the resolution of the schema left them.  What GLib itself
    prints for a [NULL] signal goes to GLib's own log domain, which [log]
    does not hold. *)
Theorem register_cb_undeclared_key_connects_nothing
    s (k : string) (f u : N) (w w0 : world glib) settings :
  gnc_gsettings_get_schema_ptr s w = Some (Some settings, w0) →
  f ≠ 0%N → k ≠ EmptyString → ¬ declared settings (Some k) →
  gnc_gsettings_register_cb s (Some k) f u w = Some (0%Z, w0).
Proof.
  intros E Hf Hk Hd. unfold gnc_gsettings_register_cb. unfold_M. rewrite E.
  apply N.eqb_neq in Hf. rewrite Hf.
  rewrite (signal_for_changed_signal settings (Some k) None)
    by (by constructor).
  simpl. by rewrite set_backend_same.
Qed.

Lemma register_cb_undeclared_witness :
  gnc_gsettings_register_cb (Some "general") (Some "window.widht") 7%N 9%N world0
  = Some (0%Z, world1).
Proof.
  exact (register_cb_undeclared_key_connects_nothing (Some "general")
           "window.widht" 7%N 9%N world0 world1 general_obj resolve_general
           ltac:(discriminate) ltac:(discriminate) not_declared_window_widht).
Defined.

(** On the example provider, with handler ids given out in order: a
    registration with no key, the empty key or a declared key connects one
    handler, for the function and user data given, and returns its id, the
    next one of the provider, which is not 0.
    [gnc_gsettings_remove_cb_by_id] with the same schema name and that id
    leaves the handlers as they were before the registration as long as the
    id fits the [guint] parameter; for an id of [2 ^ 32] or more (a [gulong]
    may hold one) the handler just connected stays connected, the call having
    asked for the removal of the id cut to 32 bits. *)
Theorem register_then_remove_by_id
    s key (f u : N) (w w0 : world glib) settings signal :
  gnc_gsettings_get_schema_ptr s w = Some (Some settings, w0) →
  f ≠ 0%N →
  signal_for settings key (Some signal) →
  ids_in_order (backend w) →
  let id := next_handler (backend w) in
  ∃ h w1 w2,
    gnc_gsettings_register_cb s key f u w = Some (id, w1)
    ∧ id ≠ 0%Z
    ∧ handlers (backend w1) = (handlers (backend w) ++ [h])%list
    ∧ handler_id h = id ∧ callback h = f ∧ data h = u
    ∧ gnc_gsettings_remove_cb_by_id s id w1 = Some (tt, w2)
    ∧ ((id < 2 ^ 32)%Z → handlers (backend w2) = handlers (backend w))
    ∧ ((2 ^ 32 ≤ id)%Z → h ∈ handlers (backend w2)).
Proof.
  intros E Hf Hsig [Hpos Hids] id0.
  destruct (glib_resolution_keeps_handlers _ _ _ _ E) as [Hh Hn].
  destruct (parse_signal_for _ _ _ Hsig) as [det Hparse].
  pose proof (get_schema_ptr_records _ _ _ _ E) as (name & Hname & Hcat).
  set (id := next_handler (backend w0)).
  assert (Hid0 : id0 = id) by (subst id0 id; by rewrite Hn).
  rewrite Hid0. clear Hid0 id0.
  set (h := {| handler_id := id; instance := object_id settings;
               signal_id := changed_signal_id; detail := det;
               callback := f; data := u |}).
  set (w1 := set_backend (P := glib)
               (set_handlers (handlers (backend w0) ++ [h])%list (id + 1)
                             (backend w0)) w0).
  assert (Hreg : gnc_gsettings_register_cb s key f u w = Some (id, w1)).
  { unfold gnc_gsettings_register_cb. unfold_M. rewrite E.
    apply N.eqb_neq in Hf. rewrite Hf.
    rewrite (signal_for_changed_signal _ _ _ Hsig).
    simpl. unfold connect. by rewrite Hparse. }
  assert (Hrem : gnc_gsettings_remove_cb_by_id s id w1
                 = Some (tt, set_backend (P := glib)
                               (disconnect settings (id mod 2 ^ 32) (backend w1))
                               w1)).
  { unfold gnc_gsettings_remove_cb_by_id. unfold_M.
    by rewrite (get_schema_ptr_cached s w1 name settings Hname Hcat). }
  exists h, w1,
    (set_backend (P := glib)
       (disconnect settings (id mod 2 ^ 32) (backend w1)) w1).
  split; [exact Hreg|]. split; [subst id; rewrite Hn; lia|].
  split; [simpl; by rewrite Hh|].
  split; [done|]. split; [done|]. split; [done|].
  split; [exact Hrem|].
  split.
  - intros Hfit. rewrite Z.mod_small by (subst id; rewrite Hn; lia).
    simpl. rewrite List.filter_app. simpl.
    rewrite bool_decide_eq_true_2 by done. rewrite Z.eqb_refl. simpl.
    rewrite app_nil_r, <- Hh. apply forallb_filter_id.
    apply forallb_forall. intros h' Hin. rewrite <- Hh, <- Hn in Hids.
    rewrite Forall_forall in Hids. apply list_elem_of_In, Hids in Hin.
    apply negb_true_iff, andb_false_iff. right.
    apply Z.eqb_neq. subst id. lia.
  - intros Hwide. simpl. apply list_elem_of_In, filter_In. split.
    + apply in_or_app. right. by left.
    + apply negb_true_iff, andb_false_iff. right. apply Z.eqb_neq. simpl.
      pose proof (Z.mod_pos_bound id (2 ^ 32) ltac:(lia)). lia.
Qed.

(** The two cases at work: the second registration on [general], removed
    again by its id 2; and a registration that gets the id [2 ^ 32 + 1],
    which stays connected after the removal by that id. *)
Lemma register_then_remove_witness :
  (∃ h w1 w2,
     gnc_gsettings_register_cb (Some "general") (Some "window.width") 7%N 9%N
       world_registered
     = Some (2%Z, w1)
     ∧ handlers (backend w1) = [handler1; h]
     ∧ gnc_gsettings_remove_cb_by_id (Some "general") 2 w1 = Some (tt, w2)
     ∧ handlers (backend w2) = [handler1])
  ∧ (∃ h w1 w2,
       gnc_gsettings_register_cb (Some "general") (Some "window.width") 7%N 9%N
         world_wide_ids
       = Some ((2 ^ 32 + 1)%Z, w1)
       ∧ handler_id h = (2 ^ 32 + 1)%Z
       ∧ gnc_gsettings_remove_cb_by_id (Some "general") (2 ^ 32 + 1) w1
         = Some (tt, w2)
       ∧ h ∈ handlers (backend w2)).
Proof.
  split.
  - destruct (register_then_remove_by_id (Some "general") (Some "window.width")
                7%N 9%N world_registered world_registered general_obj
                "changed::window.width")
      as (h & w1 & w2 & Hreg & _ & Hh & _ & _ & _ & Hrem & Hfit & _).
    + reflexivity.
    + discriminate.
    + apply (signal_declared_key (P := glib) general_obj "window.width");
        [discriminate | exact declared_window_width].
    + split; [reflexivity|]. repeat constructor.
    + exists h, w1, w2. split; [exact Hreg|]. split; [exact Hh|].
      split; [exact Hrem|]. apply Hfit. reflexivity.
  - destruct (register_then_remove_by_id (Some "general") (Some "window.width")
                7%N 9%N world_wide_ids world_wide_ids general_obj
                "changed::window.width")
      as (h & w1 & w2 & Hreg & _ & _ & Hid & _ & _ & Hrem & _ & Hwide).
    + reflexivity.
    + discriminate.
    + apply (signal_declared_key (P := glib) general_obj "window.width");
        [discriminate | exact declared_window_width].
    + split; [reflexivity|]. repeat constructor.
    + exists h, w1, w2. split; [exact Hreg|]. split; [exact Hid|].
      split; [exact Hrem|]. apply Hwide. discriminate.
Defined.

End PrefsExtraExamples.

(** ** The entity loader, continued *)

Module MigrationExtra.
Import Prefs Migration MigrationTheory.

Lemma has_slash_app (a b : string) :
  has_slash (a ++ b) = has_slash a || has_slash b.
Proof.
  induction a as [|c a IH]; [reflexivity|].
  change (has_slash (String c (a ++ b)) = has_slash (String c a) || has_slash b).
  simpl. by rewrite IH, orb_assoc.
Qed.

Lemma append_char (m : string) (c : Ascii.ascii) (rest : string) :
  m ++ String c rest = (m ++ String c EmptyString) ++ rest.
Proof. by rewrite string_app_assoc. Qed.

(** The loop, with what it has passed: [front ++ m] has been read, [m]
    has no slash and [front] is empty or ends in a slash. *)
Lemma last_segment_from_split (iter front m : string) :
  has_slash m = false →
  (front = EmptyString ∨ ∃ d, front = d ++ "/") →
  ∃ front',
    front ++ m ++ iter = front' ++ last_segment_from iter (m ++ iter)
    ∧ has_slash (last_segment_from iter (m ++ iter)) = false
    ∧ (front' = EmptyString ∨ ∃ d, front' = d ++ "/").
Proof.
  revert front m. induction iter as [|c rest IH]; intros front m Hm Hfront.
  - exists front. simpl. rewrite NamesTheory.append_empty. auto.
  - simpl. destruct (Ascii.eqb_spec c "/"%char) as [->|Hc].
    + destruct (IH (front ++ m ++ "/") EmptyString eq_refl) as (f' & E & H1 & H2).
      { right. exists (front ++ m). by rewrite string_app_assoc. }
      change (EmptyString ++ rest) with rest in E, H1.
      exists f'. split; [|auto].
      rewrite <- E. rewrite (append_char m "/" rest).
      by rewrite !string_app_assoc.
    + rewrite (append_char m c rest).
      destruct (IH front (m ++ String c EmptyString)) as (f' & E & H1 & H2);
        [|exact Hfront|].
      { rewrite has_slash_app, Hm. simpl.
        apply Ascii.eqb_neq in Hc. by rewrite Hc. }
      exists f'. auto.
Qed.

(** What the scan of the entity loader computes, for every URL: the
    last segment is the end of the URL, it holds no slash, and what stands
    before it is nothing or ends in a slash. *)
Theorem last_segment_is_slash_free_end (URL : string) :
  ∃ front,
    URL = front ++ lastsegment_of URL
    ∧ has_slash (lastsegment_of URL) = false
    ∧ (front = EmptyString ∨ ∃ d, front = d ++ "/").
Proof.
  destruct (last_segment_from_split URL EmptyString EmptyString eq_refl)
    as (front & E & H1 & H2); [by left|].
  exists front. auto.
Qed.

Lemma restore_after_silencing (ctxt : option xmlParserCtxt) :
  restore_warning (warning_of ctxt) (with_warning None ctxt) = ctxt.
Proof. by destruct ctxt as [[[[[f|]]|]]|]. Qed.

Section Loader.
Context {xmlParserInput : Type} (tmpdir : string).

(** The loader leaves the parser context as it found it: whenever a call
    returns, with an input or without, the warning function it silenced is
    back in place. *)
Theorem entity_loader_restores_context
    (dflt : option (string → option string → option xmlParserCtxt
                    → option xmlParserInput))
    (URL ID : option string) (ctxt : option xmlParserCtxt) r :
  xsltprocExternalEntityLoader xmlParserInput tmpdir dflt URL ID ctxt = Some r →
  ctxt_after r = ctxt.
Proof.
  unfold xsltprocExternalEntityLoader.
  destruct URL as [url|]; simpl; [|discriminate].
  destruct dflt as [load|]; simpl.
  - destruct (load url ID (with_warning None ctxt)).
    + intros [= <-]. apply restore_after_silencing.
    + destruct (load (newURL_of tmpdir url) ID (with_warning None ctxt));
        intros [= <-]; apply restore_after_silencing.
  - discriminate.
Qed.

(** The loader's answer and its warning: with a default loader and a URL
    the call returns; the input is what the default loader finds at the URL
    as given, with warnings silenced, and only when it finds nothing there,
    what it finds at the scratch path; a warning is given exactly when both
    find nothing and a warning function was installed, once, through that
    function, and it names the URL as given. *)
Theorem entity_loader_outcome
    (load : string → option string → option xmlParserCtxt
            → option xmlParserInput)
    (URL : string) (ID : option string) (ctxt : option xmlParserCtxt) :
  ∃ r,
    xsltprocExternalEntityLoader xmlParserInput tmpdir (Some load)
      (Some URL) ID ctxt = Some r
    ∧ ret r = match load URL ID (with_warning None ctxt) with
              | Some input => Some input
              | None => load (newURL_of tmpdir URL) ID (with_warning None ctxt)
              end
    ∧ warned r = match ret r, warning_of ctxt with
                 | None, Some f =>
                     [(f, "failed to load external entity " ++ dquote
                          ++ URL ++ dquote ++ newline)]
                 | _, _ => []
                 end.
Proof.
  unfold xsltprocExternalEntityLoader. simpl.
  destruct (load URL ID (with_warning None ctxt)) as [input|].
  - eexists. split; [reflexivity|]. split; reflexivity.
  - simpl.
    destruct (load (newURL_of tmpdir URL) ID (with_warning None ctxt))
      as [input|].
    + eexists. split; [reflexivity|]. split; reflexivity.
    + eexists. split; [reflexivity|]. split; [reflexivity|].
      simpl. by destruct (warning_of ctxt).
Qed.

End Loader.

(** A parser context with the warning function 5 installed. *)
Lemma entity_loader_restores_witness :
  ∃ r,
    xsltprocExternalEntityLoader string "/home/u/.gnc-migration-tmp"
      (Some sample_loader) (Some "/usr/share/xml/missing.dtd") None
      (Some {| sax := Some {| warning := Some 5%positive |} |})
    = Some r
    ∧ ctxt_after r = Some {| sax := Some {| warning := Some 5%positive |} |}.
Proof.
  eexists. split; [reflexivity|].
  eapply (entity_loader_restores_context "/home/u/.gnc-migration-tmp"
            (Some sample_loader) (Some "/usr/share/xml/missing.dtd") None).
  reflexivity.
Defined.

End MigrationExtra.
